(** * bookmark-parser: the parser package, embedded and verified

    A shallow embedding of [parser/parser.go]: the document walk of
    [Parse], the probe of [ValidateBookmark], the import transaction of
    [SaveBookmarks], the concurrent validation run of
    [ValidateAndUpdateBookmarks] and the export of [ExportValidBookmarks].

    Go strings are byte strings ([string]); [int64] ids are [Z]; a Go
    [error] is [option string] with [None] for [nil]; the [bookmarks] table
    is the list of its rows in rowid order. *)

From Stdlib Require Import ZArith Ascii Sorting.Sorted.
From stdpp Require Import gmap strings list sorting pretty.

Local Open Scope Z_scope.
Local Open Scope string_scope.
Local Open Scope list_scope.

(** ** Errors *)

Definition error := option string.

(** [fmt.Errorf("<prefix>: %v", err)] *)
Definition Errorf (prefix : string) (err : string) : error :=
  Some (prefix +:+ ": " +:+ err).

(** ** The Bookmark struct (parser.go:16-26) *)

Record Bookmark := mkBookmark {
  ID : Z;
  Title : string;
  URL : string;
  Folder : string;
  Dead : bool;
  Redirect : bool;
  RedirectURL : string;
  Duplicate : bool;
  DuplicateOf : Z
}.

Definition set_Dead (v : bool) (b : Bookmark) : Bookmark :=
  mkBookmark (ID b) (Title b) (URL b) (Folder b) v (Redirect b)
             (RedirectURL b) (Duplicate b) (DuplicateOf b).

Definition set_Redirect (v : bool) (b : Bookmark) : Bookmark :=
  mkBookmark (ID b) (Title b) (URL b) (Folder b) (Dead b) v
             (RedirectURL b) (Duplicate b) (DuplicateOf b).

Definition set_RedirectURL (v : string) (b : Bookmark) : Bookmark :=
  mkBookmark (ID b) (Title b) (URL b) (Folder b) (Dead b) (Redirect b)
             v (Duplicate b) (DuplicateOf b).

(** ** strings.TrimSpace

    [strings.TrimSpace] removes leading and trailing runes for which
    [unicode.IsSpace] holds.  On a byte string these are the UTF-8
    encodings of U+0009..U+000D, U+0020, U+0085, U+00A0, U+1680,
    U+2000..U+200A, U+2028, U+2029, U+202F, U+205F and U+3000; an
    ill-formed byte decodes to U+FFFD, which is no space.  The ASCII fast
    path of the Go function computes the same result. *)
Module TrimSpace.

Definition byte (a : ascii) : N := N_of_ascii a.

Definition space1 (c : ascii) : bool :=
  let n := byte c in
  (((9 <=? n) && (n <=? 13)) || (n =? 32))%N.

Definition space2 (c1 c2 : ascii) : bool :=
  ((byte c1 =? 194) && ((byte c2 =? 133) || (byte c2 =? 160)))%N.

Definition space3 (c1 c2 c3 : ascii) : bool :=
  let '(a, b, c) := (byte c1, byte c2, byte c3) in
  ( ((a =? 225) && (b =? 154) && (c =? 128))
 || ((a =? 226) && (b =? 128)
      && (((128 <=? c) && (c <=? 138)) || (c =? 168) || (c =? 169) || (c =? 175)))
 || ((a =? 226) && (b =? 129) && (c =? 159))
 || ((a =? 227) && (b =? 128) && (c =? 128)) )%N.

(** [strings.TrimLeftFunc(s, unicode.IsSpace)] on the bytes of [s]. *)
Fixpoint trimLeft (s : list ascii) : list ascii :=
  match s with
  | [] => []
  | c1 :: r1 =>
      if space1 c1 then trimLeft r1 else
      match r1 with
      | c2 :: r2 =>
          if space2 c1 c2 then trimLeft r2 else
          match r2 with
          | c3 :: r3 => if space3 c1 c2 c3 then trimLeft r3 else s
          | [] => s
          end
      | [] => s
      end
  end.

(** [strings.TrimRightFunc(s, unicode.IsSpace)], on the reversed bytes:
    the last rune is decoded from its lead byte, which is the nearest
    non-continuation byte from the end. *)
Fixpoint trimRightRev (s : list ascii) : list ascii :=
  match s with
  | [] => []
  | c1 :: r1 =>
      if space1 c1 then trimRightRev r1 else
      match r1 with
      | c2 :: r2 =>
          if space2 c2 c1 then trimRightRev r2 else
          match r2 with
          | c3 :: r3 => if space3 c3 c2 c1 then trimRightRev r3 else s
          | [] => s
          end
      | [] => s
      end
  end.

Definition trimRight (s : list ascii) : list ascii :=
  rev (trimRightRev (rev s)).

End TrimSpace.

Definition TrimSpace (s : string) : string :=
  String.string_of_list_ascii
    (TrimSpace.trimRight (TrimSpace.trimLeft (String.list_ascii_of_string s))).

(** ** The node tree of golang.org/x/net/html

    [html.Parse] is the library's; the embedding starts from the tree it
    returns.  [FirstChild] is the head of [Children] and [NextSibling]
    the rest of the list. *)

Inductive NodeType :=
  ErrorNode | TextNode | DocumentNode | ElementNode | CommentNode
| DoctypeNode | RawNode.

Record Attribute := mkAttr { Namespace : string; Key : string; Val : string }.

#[local] Unset Elimination Schemes.
Inductive Node := mkNode {
  Type_ : NodeType;
  Data : string;
  Attr : list Attribute;
  Children : list Node
}.
#[local] Set Elimination Schemes.

Definition FirstChild (n : Node) : option Node := head (Children n).

Definition isElement (n : Node) : bool :=
  match Type_ n with ElementNode => true | _ => false end.

(** Shorthands for building trees. *)
Definition text (s : string) : Node := mkNode TextNode s [] [].
Definition elem (tag : string) (attrs : list Attribute) (cs : list Node) : Node :=
  mkNode ElementNode tag attrs cs.
Definition href (u : string) : Attribute := mkAttr "" "href" u.
(** What [html.Parse] wraps around body content. *)
Definition document (body : list Node) : Node :=
  mkNode DocumentNode "" []
    [elem "html" [] [elem "head" [] []; elem "body" [] body]].

(** ** Parse (parser.go:59-106) *)

(** The two variables the closure [traverse] captures. *)
Record walk := mkWalk {
  bookmarks : list Bookmark;
  currentFolder : string
}.

(** Lines 80-85: the value of the first attribute whose key is "href". *)
Fixpoint hrefOf (attrs : list Attribute) : string :=
  match attrs with
  | [] => ""
  | attr :: rest => if Key attr =? "href" then Val attr else hrefOf rest
  end.

(** Lines 86-88. *)
Definition firstChildData (n : Node) : string :=
  match FirstChild n with
  | Some c => Data c
  | None => ""
  end.

(** Lines 70-97: what [traverse] does at the node itself. *)
Definition visit (w : walk) (n : Node) : walk :=
  if isElement n then
    if Data n =? "h3" then
      match FirstChild n with
      | Some c => mkWalk (bookmarks w) (Data c)
      | None => w
      end
    else if Data n =? "a" then
      let url := hrefOf (Attr n) in
      let title := firstChildData n in
      if negb (url =? "") && negb (title =? "") then
        mkWalk (bookmarks w ++
                  [mkBookmark 0 (TrimSpace title) url (currentFolder w)
                              false false "" false 0])
               (currentFolder w)
      else w
    else w
  else w.

(** Lines 69-102: the node, then its children from first to last. *)
Fixpoint traverse (n : Node) (w : walk) : walk :=
  (fix siblings (cs : list Node) (w : walk) : walk :=
     match cs with
     | [] => w
     | c :: cs' => siblings cs' (traverse c w)
     end) (Children n) (visit w n).

(** [Parse] after [html.Parse]; [parsed] is what [html.Parse] returned. *)
Definition Parse (parsed : Node + string) : list Bookmark * error :=
  match parsed with
  | inr err => ([], Some err)
  | inl doc => (bookmarks (traverse doc (mkWalk [] "")), None)
  end.

(** Depth-first document order. *)
Fixpoint preorder (n : Node) : list Node :=
  n :: (fix siblings (cs : list Node) : list Node :=
          match cs with
          | [] => []
          | c :: cs' => preorder c ++ siblings cs'
          end) (Children n).

(** ** ValidateBookmark (parser.go:109-137) *)

(** How [client.Get] ends: with a transport error, or with a response. *)
Inductive GetEnd :=
| TransportError (msg : string)
| Response (StatusCode : Z).

(** One run of [client.Get], seen from the caller: [hops] are the URLs of
    the requests issued after the first, one per redirect followed, in
    order; net/http announces each to [CheckRedirect] before sending it.
    [ending] is how the last request issued ended. *)
Record Exchange := mkExchange {
  hops : list string;
  ending : GetEnd
}.

(** Lines 112-118.  [req_URL] is [req.URL.String()], [via] the requests
    made so far, oldest first. *)
Definition CheckRedirect (bookmark : Bookmark) (req_URL : string)
    (via : list string) : Bookmark :=
  if (1 <=? length via)%nat
  then set_RedirectURL req_URL (set_Redirect true bookmark)
  else bookmark.

(** The calls net/http makes to [CheckRedirect] during one [Get]. *)
Fixpoint followRedirects (bookmark : Bookmark) (via : list string)
    (hops : list string) : Bookmark :=
  match hops with
  | [] => bookmark
  | u :: rest => followRedirects (CheckRedirect bookmark u via) (via ++ [u]) rest
  end.

(** [resp.Request.URL.String()]: the URL of the last request issued. *)
Definition finalURL (url : string) (hops : list string) : string :=
  List.last hops url.

Definition ValidateBookmark (bookmark : Bookmark) (x : Exchange)
    : Bookmark * error :=
  let bookmark := followRedirects bookmark [URL bookmark] (hops x) in
  match ending x with
  | TransportError _ => (set_Dead true bookmark, None)
  | Response StatusCode =>
      let bookmark :=
        if (400 <=? StatusCode)%Z then set_Dead true bookmark else bookmark in
      let bookmark :=
        if Redirect bookmark && (RedirectURL bookmark =? "")
        then set_RedirectURL (finalURL (URL bookmark) (hops x)) bookmark
        else bookmark in
      (bookmark, None)
  end.

(** ** The bookmarks table (parser.go:29-45) *)

Record Row := mkRow {
  id_ : Z;
  title : string;
  url : string;
  folder : string;
  is_dead : bool;
  is_redirect : bool;
  redirect_url : option string;
  is_duplicate : bool;
  duplicate_of : option Z
}.

(** The table in rowid order; a transaction works on its own copy. *)
Definition Store := list Row.

(** [INTEGER PRIMARY KEY AUTOINCREMENT]: one more than the largest id. *)
Definition nextID (t : Store) : Z :=
  1 + fold_right Z.max 0 (map id_ t).

(** [INSERT INTO bookmarks (title, url, folder, is_duplicate, duplicate_of)]:
    the status columns take their defaults. *)
Definition insertRow (t : Store) (title url folder : string)
    (is_duplicate : bool) (duplicate_of : option Z) : Store :=
  t ++ [mkRow (nextID t) title url folder false false None
              is_duplicate duplicate_of].

(** [SELECT id FROM bookmarks WHERE url = ?], first row. *)
Definition selectIDByURL (t : Store) (u : string) : option Z :=
  id_ <$> List.find (fun r => url r =? u) t.

(** [UPDATE bookmarks SET is_dead = ?, is_redirect = ?, redirect_url = ?
    WHERE id = ?] *)
Definition updateStatus (t : Store) (dead redirect : bool)
    (redirectURL : string) (id : Z) : Store :=
  map (fun r =>
         if (id_ r =? id)%Z
         then mkRow (id_ r) (title r) (url r) (folder r) dead redirect
                    (Some redirectURL) (is_duplicate r) (duplicate_of r)
         else r) t.

(** ** SaveBookmarks (parser.go:140-179) *)

(** Which store operations of one import fail, and with what message;
    lookups and inserts are numbered by their position in the batch. *)
Record SaveFaults := mkSaveFaults {
  begin_fault : option string;
  lookup_fault : nat -> option string;
  prepare_fault : option string;
  insert_fault : nat -> option string;
  commit_fault : option string
}.

Definition no_faults : SaveFaults :=
  mkSaveFaults None (fun _ => None) None (fun _ => None) None.

(** Line 150: [tx.QueryRow(...).Scan(&existingID)]. *)
Definition scanExistingID (tx : Store) (fault : option string) (u : string)
    : Z * error :=
  match fault with
  | Some msg => (0, Some msg)
  | None =>
      match selectIDByURL tx u with
      | Some i => (i, None)
      | None => (0, Some "sql: no rows in result set")
      end
  end.

(** Lines 147-154. *)
Fixpoint buildURLMap (tx : Store) (f : SaveFaults) (i : nat)
    (batch : list Bookmark) (urlMap : gmap string Z) : gmap string Z :=
  match batch with
  | [] => urlMap
  | b :: rest =>
      let '(existingID, err) := scanExistingID tx (lookup_fault f i) (URL b) in
      buildURLMap tx f (S i) rest
        match err with
        | None => <[URL b := existingID]> urlMap
        | Some _ => urlMap
        end
  end.

(** Lines 166-178; [db] is the table as committed, which a rollback
    leaves in place. *)
Fixpoint insertAll (db tx : Store) (f : SaveFaults) (urlMap : gmap string Z)
    (i : nat) (batch : list Bookmark) : Store * error :=
  match batch with
  | [] =>
      match commit_fault f with
      | Some msg => (db, Some msg)
      | None => (tx, None)
      end
  | b :: rest =>
      match insert_fault f i with
      | Some msg => (db, Some msg)
      | None =>
          let tx :=
            match urlMap !! URL b with
            | Some duplicateID =>
                insertRow tx (Title b) (URL b) (Folder b) true (Some duplicateID)
            | None =>
                insertRow tx (Title b) (URL b) (Folder b) false None
            end in
          insertAll db tx f urlMap (S i) rest
      end
  end.

Definition SaveBookmarks (db : Store) (f : SaveFaults)
    (bookmarks : list Bookmark) : Store * error :=
  match begin_fault f with
  | Some msg => (db, Some msg)
  | None =>
      let urlMap := buildURLMap db f 0 bookmarks ∅ in
      match prepare_fault f with
      | Some msg => (db, Some msg)
      | None => insertAll db db f urlMap 0 bookmarks
      end
  end.

(** ** ValidateAndUpdateBookmarks (parser.go:182-303) *)

(** Lines 197-203. *)
Record validationResult := mkResult {
  vr_id : Z;
  vr_dead : bool;
  vr_redirect : bool;
  vr_redirectURL : string;
  vr_err : error
}.

(** Lines 250-255. *)
Record Stats := mkStats {
  total : nat;
  dead : nat;
  redirects : nat;
  valid : nat
}.

(** Lines 289-296. *)
Definition renderReport (stats : Stats) : string :=
  "Bookmark Validation Report" +:+ "
" +:+ "========================" +:+ "

" +:+ "Total URLs processed: " +:+ pretty (total stats) +:+ "
" +:+ "Valid URLs: " +:+ pretty (valid stats) +:+ "
" +:+ "Dead links: " +:+ pretty (dead stats) +:+ "
" +:+ "Redirects: " +:+ pretty (redirects stats) +:+ "
".

(** Lines 229-237: the body of one probe task, up to the value it sends. *)
Definition probeTask (bookmarkID : Z) (bookmarkURL : string) (x : Exchange)
    : validationResult :=
  let bookmark :=
    mkBookmark bookmarkID "" bookmarkURL "" false false "" false 0 in
  let '(bookmark, err) := ValidateBookmark bookmark x in
  mkResult bookmarkID (Dead bookmark) (Redirect bookmark)
           (RedirectURL bookmark) err.

(** Lines 268-275. *)
Definition count (stats : Stats) (result : validationResult) : Stats :=
  if vr_dead result then
    mkStats (S (total stats)) (S (dead stats)) (redirects stats) (valid stats)
  else if vr_redirect result then
    mkStats (S (total stats)) (dead stats) (S (redirects stats)) (valid stats)
  else
    mkStats (S (total stats)) (dead stats) (redirects stats) (S (valid stats)).

(** The function's own goroutine: in its [range results] loop with the
    transaction's copy of the table and the counts so far, or returned. *)
Inductive Main :=
| Draining (tx : Store) (stats : Stats)
| Returned (err : error).

(** Lines 258-275: the loop body for one received [result]; [exec_fault]
    says whether [stmt.Exec] fails. *)
Definition receive (tx : Store) (stats : Stats) (result : validationResult)
    (exec_fault : option string) : Main :=
  match vr_err result with
  | Some err => Returned (Errorf "error validating bookmark" err)
  | None =>
      match exec_fault with
      | Some err => Returned (Errorf "error updating bookmark status" err)
      | None =>
          Draining (updateStatus tx (vr_dead result) (vr_redirect result)
                                 (vr_redirectURL result) (vr_id result))
                   (count stats result)
      end
  end.

(** The goroutines and what they share.  [store] is the table as
    committed and [report] the content of output/validation_report.txt, if
    written; [rows] is what the cursor has still to deliver; [workQueue]
    counts the tokens in the channel of that name; [tasks] are the probe
    goroutines launched that have not yet sent; [closed] says whether
    [results] is closed; [panicked] whether a goroutine has panicked. *)
Record Config := mkConfig {
  store : Store;
  report : option string;
  rows : list (Z * string);
  workQueue : nat;
  tasks : list (Z * string);
  closed : bool;
  main : Main;
  panicked : bool
}.

(** One move of one goroutine, with what the environment decides in it. *)
Inductive Action :=
| Launch
    (* producer, lines 216-238: the next row scans, a token is taken from
       workQueue, the task is started *)
| ScanError (msg : string)
    (* producer, lines 219-221, and main, lines 257-260: the next row fails
       to scan and main receives the result that carries the error *)
| CloseResults
    (* producer, line 215: the row loop is over, results is closed; the
       loop is over when the cursor is exhausted, or when main has
       returned and its deferred rows.Close() (line 194) has closed the
       cursor *)
| TaskResult (k : nat) (x : Exchange) (exec_fault : option string)
    (* task k, lines 227-237, and main, lines 257-276: the probe has ended
       as x, the task sends, main receives and updates, the task puts its
       token back *)
| Finish (commit_fault mkdir_fault write_fault : option string).
    (* main, lines 257 and 278-302: results is closed and drained *)

Definition step (c : Config) (a : Action) : option Config :=
  if panicked c then None else
  match a with
  | Launch =>
      match rows c, workQueue c, closed c with
      | (id, url) :: rest, S free, false =>
          Some (mkConfig (store c) (report c) rest free
                         (tasks c ++ [(id, url)]) false (main c) false)
      | _, _, _ => None
      end
  | ScanError msg =>
      match rows c, main c, closed c with
      | _ :: rest, Draining tx stats, false =>
          Some (mkConfig (store c) (report c) rest (workQueue c) (tasks c)
                  false
                  (receive tx stats (mkResult 0 false false "" (Some msg)) None)
                  false)
      | _, _, _ => None
      end
  | CloseResults =>
      match closed c, rows c, main c with
      | false, [], _
      | false, _ :: _, Returned _ =>
          Some (mkConfig (store c) (report c) (rows c) (workQueue c) (tasks c)
                         true (main c) false)
      | _, _, _ => None
      end
  | TaskResult k x exec_fault =>
      match tasks c !! k with
      | None => None
      | Some (id, url) =>
          if closed c then
            (* send on closed channel *)
            Some (mkConfig (store c) (report c) (rows c) (workQueue c)
                           (tasks c) true (main c) true)
          else
            match main c with
            | Draining tx stats =>
                Some (mkConfig (store c) (report c) (rows c)
                        (S (workQueue c)) (delete k (tasks c)) false
                        (receive tx stats (probeTask id url x) exec_fault)
                        false)
            | Returned _ => None
            end
      end
  | Finish commit_fault mkdir_fault write_fault =>
      match main c, closed c with
      | Draining tx stats, true =>
          match commit_fault with
          | Some err =>
              Some (mkConfig (store c) (report c) (rows c) (workQueue c)
                      (tasks c) true
                      (Returned (Errorf "error committing transaction" err))
                      false)
          | None =>
              match mkdir_fault, write_fault with
              | Some err, _ =>
                  Some (mkConfig tx (report c) (rows c) (workQueue c)
                          (tasks c) true
                          (Returned (Errorf "error creating output directory" err))
                          false)
              | None, Some err =>
                  Some (mkConfig tx (report c) (rows c) (workQueue c)
                          (tasks c) true
                          (Returned (Errorf "error writing report" err))
                          false)
              | None, None =>
                  Some (mkConfig tx (Some (renderReport stats)) (rows c)
                          (workQueue c) (tasks c) true (Returned None) false)
              end
          end
      | _, _ => None
      end
  end.

Fixpoint exec (c : Config) (schedule : list Action) : option Config :=
  match schedule with
  | [] => Some c
  | a :: rest =>
      match step c a with
      | Some c' => exec c' rest
      | None => None
      end
  end.

(** Lines 207-211. *)
Definition workerCount : nat := 10.

(** Lines 184-247, up to the first receive: the transaction and the
    cursor are opened, the producer is started, the statement is prepared.
    [report0] is the report file left by earlier runs, if any. *)
Definition start (db : Store) (report0 : option string)
    (begin_fault query_fault prepare_fault : option string) : Config :=
  match begin_fault, query_fault, prepare_fault with
  | Some err, _, _ =>
      mkConfig db report0 [] workerCount [] true
               (Returned (Errorf "error starting transaction" err)) false
  | None, Some err, _ =>
      mkConfig db report0 [] workerCount [] true
               (Returned (Errorf "error querying bookmarks" err)) false
  | None, None, Some err =>
      mkConfig db report0 (map (fun r => (id_ r, url r)) db) workerCount []
               false
               (Returned (Errorf "error preparing update statement" err)) false
  | None, None, None =>
      mkConfig db report0 (map (fun r => (id_ r, url r)) db) workerCount []
               false (Draining db (mkStats 0 0 0 0)) false
  end.

(** The run under a schedule of its goroutines. *)
Definition ValidateAndUpdateBookmarks (db : Store) (schedule : list Action)
    : option Config :=
  exec (start db None None None None) schedule.

(** ** ExportValidBookmarks (parser.go:306-380) *)

(** [ORDER BY folder, title] under the BINARY collation: byte order on
    the folder, then on the title. *)
Definition row_leb (r1 r2 : Row) : bool :=
  match String.compare (folder r1) (folder r2) with
  | Lt => true
  | Eq => String.leb (title r1) (title r2)
  | Gt => false
  end.

Definition row_le (r1 r2 : Row) : Prop := row_leb r1 r2 = true.

#[local] Instance row_le_dec r1 r2 : Decision (row_le r1 r2).
Proof. unfold row_le. apply _. Defined.

Definition isValid (r : Row) : bool := negb (is_dead r) && negb (is_redirect r).

(** Lines 307-312: the rows the query delivers, in order. *)
Definition selectValid (db : Store) : list Row :=
  merge_sort row_le (List.filter isValid db).

(** Line 322: [rows.Scan(&b.Title, &b.URL, &b.Folder)] into a zero value. *)
Definition scanBookmark (r : Row) : Bookmark :=
  mkBookmark 0 (title r) (url r) (folder r) false false "" false 0.

(** Lines 319-326. *)
Definition groupByFolder (bs : list Bookmark) : gmap string (list Bookmark) :=
  fold_left
    (fun bookmarksByFolder b =>
       <[Folder b := default [] (bookmarksByFolder !! Folder b) ++ [b]]>
         bookmarksByFolder)
    bs ∅.

(** One call that writes to the file. *)
Inductive Write :=
| Header
| FolderHeader (folder : string)
| Link (b : Bookmark)
| FolderFooter
| Footer.

Definition render (w : Write) : string :=
  match w with
  | Header =>
"<!DOCTYPE NETSCAPE-Bookmark-file-1>
<!-- This is an automatically generated file.
     It will be read and overwritten.
     DO NOT EDIT! -->
<META HTTP-EQUIV=" +:+ String (ascii_of_nat 34) "Content-Type" +:+
String (ascii_of_nat 34) " CONTENT=" +:+
String (ascii_of_nat 34) "text/html; charset=UTF-8" +:+
String (ascii_of_nat 34) ">
<TITLE>Bookmarks</TITLE>
<H1>Bookmarks</H1>
<DL><p>
"
  | FolderHeader folder =>
      "    <DT><H3>" +:+ folder +:+ "</H3>
    <DL><p>
"
  | Link b =>
      "        <DT><A HREF=" +:+ String (ascii_of_nat 34) (URL b) +:+
      String (ascii_of_nat 34) ">" +:+ Title b +:+ "</A>
"
  | FolderFooter => "    </DL><p>
"
  | Footer => "</DL><p>
"
  end.

(** Lines 350-371, for one key of the map. *)
Definition folderWrites (bookmarksByFolder : gmap string (list Bookmark))
    (folder : string) : list Write :=
  (if folder =? "" then [] else [FolderHeader folder])
  ++ map Link (default [] (bookmarksByFolder !! folder))
  ++ (if folder =? "" then [] else [FolderFooter]).

(** The writes of one export.  Go ranges over a map in no fixed order:
    [order] is the order in which this run meets the keys. *)
Definition ExportValidBookmarks (db : Store) (order : list string)
    : list Write :=
  let bookmarksByFolder := groupByFolder (map scanBookmark (selectValid db)) in
  [Header] ++ concat (map (folderWrites bookmarksByFolder) order) ++ [Footer].

(** [order] is an order in which a range over the map of this export can
    meet its keys: each key once. *)
Definition rangeOrder (db : Store) (order : list string) : Prop :=
  order ≡ₚ (map_to_list (groupByFolder (map scanBookmark (selectValid db)))).*1.

(** The content of the file after the writes [ws]. *)
Definition fileContent (ws : list Write) : string :=
  fold_right (fun w s => render w +:+ s) "" ws.

(** The links among the writes, in order. *)
Definition links (ws : list Write) : list Bookmark :=
  omap (fun w => match w with Link b => Some b | _ => None end) ws.

(** ** Notions the statements below use *)

(** Induction on trees: the property holds of a node when it holds of
    its children. *)
Fixpoint Node_forall_ind (P : Node -> Prop)
    (IH : forall t d a cs, Forall P cs -> P (mkNode t d a cs))
    (n : Node) : P n :=
  match n with
  | mkNode t d a cs =>
      IH t d a cs
        ((fix children (l : list Node) : Forall P l :=
            match l with
            | [] => @List.Forall_nil Node P
            | c :: l' =>
                @List.Forall_cons Node P c l' (Node_forall_ind P IH c) (children l')
            end) cs)
  end.

Definition isHeading (n : Node) : bool := isElement n && (Data n =? "h3").

Definition isLink (n : Node) : bool := isElement n && (Data n =? "a").

(** The record a node yields when the current folder is [folder]. *)
Definition linkRecord (n : Node) (folder : string) : option Bookmark :=
  if isLink n && negb (hrefOf (Attr n) =? "") && negb (firstChildData n =? "")
  then Some (mkBookmark 0 (TrimSpace (firstChildData n)) (hrefOf (Attr n))
                        folder false false "" false 0)
  else None.

(** The records of a sequence of nodes [rest] that follows [pre] in
    document order, when [label] gives the folder in force after a prefix
    of the document. *)
Fixpoint emitted (label : list Node -> string) (pre rest : list Node)
    : list Bookmark :=
  match rest with
  | [] => []
  | n :: rest' =>
      match linkRecord n (label pre) with
      | Some b => b :: emitted label (pre ++ [n]) rest'
      | None => emitted label (pre ++ [n]) rest'
      end
  end.

(** The folder rule as the specification words it: the text of the most
    recently visited heading, empty when no heading was visited.  The text
    of a heading is the data of its first child, empty for a heading
    without content. *)
Definition lastHeadingText (pre : list Node) : string :=
  match List.find isHeading (rev pre) with
  | Some h => firstChildData h
  | None => ""
  end.

(** The folder rule of the code: the data of the first child of the most
    recently visited heading that has a child. *)
Definition lastLabel (pre : list Node) : string :=
  match List.find (fun n => isHeading n && bool_decide (Children n <> []))
                  (rev pre) with
  | Some h => firstChildData h
  | None => ""
  end.

(** <h3>A</h3><h3></h3><a href="u">t</a> *)
Definition emptyHeadingDoc : Node :=
  document [elem "h3" [] [text "A"];
            elem "h3" [] [];
            elem "a" [href "u"] [text "t"]].

(** A folder Outer with a link, a sub-folder Inner with a link, and a
    further link of Outer after the sub-folder's list is closed:
    <dl><dt><h3>Outer</h3><dl><dt><a href="u1">one</a>
    <dt><h3>Inner</h3><dl><dt><a href="u2">two</a></dl>
    <dt><a href="u3">three</a></dl></dl> *)
Definition nestedDoc : Node :=
  document
    [elem "dl" []
       [elem "dt" []
          [elem "h3" [] [text "Outer"];
           elem "dl" []
             [elem "dt" [] [elem "a" [href "u1"] [text "one"]];
              elem "dt" []
                [elem "h3" [] [text "Inner"];
                 elem "dl" [] [elem "dt" [] [elem "a" [href "u2"] [text "two"]]]];
              elem "dt" [] [elem "a" [href "u3"] [text "three"]]]]]].

(** <a href="http://x"> </a> *)
Definition blankTitleDoc : Node :=
  document [elem "a" [href "http://x"] [text " "]].

(** A probe that follows two redirects to a page answered 200. *)
Definition twoHops : Exchange :=
  mkExchange ["https://a.example/"; "https://a.example/home"] (Response 200).

(** What an import makes of the record [b] of its batch, as the row [r],
    given the table [db] as it was before the import. *)
Definition imported (db : Store) (b : Bookmark) (r : Row) : Prop :=
  title r = Title b /\ url r = URL b /\ folder r = Folder b
  /\ (is_duplicate r = true <-> exists r0, In r0 db /\ url r0 = URL b)
  /\ (is_duplicate r = true ->
      exists r0, In r0 db /\ url r0 = URL b /\ duplicate_of r = Some (id_ r0))
  /\ (is_duplicate r = false -> duplicate_of r = None).

(** A table with one row, for the URL A. *)
Definition storeWithA : Store :=
  [mkRow 1 "T1" "http://a.example/" "News" false false None false None].

(** A batch of one record for the same URL. *)
Definition batchA : list Bookmark :=
  [mkBookmark 0 "T2" "http://a.example/" "Later" false false "" false 0].

(** A batch of two records that share a URL. *)
Definition batchBB : list Bookmark :=
  [mkBookmark 0 "T3" "http://b.example/" "News" false false "" false 0;
   mkBookmark 0 "T4" "http://b.example/" "Later" false false "" false 0].

(** The store fails on every duplicate lookup and on nothing else. *)
Definition lookupsFail : SaveFaults :=
  mkSaveFaults None (fun _ => Some "database is locked") None (fun _ => None) None.

(** The columns of a row that are not status columns. *)
Definition frame (r : Row) : Z * string * string * string * bool * option Z :=
  (id_ r, title r, url r, folder r, is_duplicate r, duplicate_of r).

(** What a run keeps of the table [db] it started from. *)
Definition keepsFrame (db : Store) (c : Config) : Prop :=
  map frame (store c) = map frame db
  /\ match main c with
     | Draining tx _ => map frame tx = map frame db
     | Returned _ => True
     end.

(** A table of two rows, the first validated before. *)
Definition storeAB : Store :=
  [mkRow 1 "T1" "http://a.example/" "News" true false (Some "") false None;
   mkRow 2 "T2" "http://b.example/" "" false false None true (Some 1)].

(** The first row is probed and updated, then the second fails to scan. *)
Definition scheduleScanError : list Action :=
  [Launch; TaskResult 0 twoHops None; ScanError "converting NULL to string"].

(** Both rows are probed and updated, the channel is closed after the
    last result, the run commits and reports. *)
Definition scheduleComplete : list Action :=
  [Launch; Launch;
   TaskResult 1 (mkExchange [] (TransportError "timeout")) None;
   TaskResult 0 twoHops None;
   CloseResults; Finish None None None].

(** The producer starts the only task and closes the channel before the
    task has sent; main finds the channel closed. *)
Definition scheduleEarlyClose : list Action :=
  [Launch; CloseResults; Finish None None None].

(** A table of five rows in three folders; rows 3 and 5 are not valid. *)
Definition storeMixed : Store :=
  [mkRow 1 "Zeta" "http://z.example/" "News" false false None false None;
   mkRow 2 "Alpha" "http://a.example/" "News" false false (Some "") false None;
   mkRow 3 "Gone" "http://g.example/" "News" true false (Some "") false None;
   mkRow 4 "Loose" "http://l.example/" "" false false None false None;
   mkRow 5 "Moved" "http://m.example/" "Old" false true
         (Some "http://n.example/") false None].

(** ** Further notions: the rest of the package and its callers *)

(** ParseFile (parser.go:48-56); [opened] is what [os.Open] and then
    [html.Parse] returned, the error of [os.Open] on the right. *)
Definition ParseFile (opened : (Node + string) + string)
    : list Bookmark * error :=
  match opened with
  | inr err => ([], Some err)
  | inl parsed => Parse parsed
  end.

(** The title and URL a node yields as a record, if it yields one. *)
Definition linkTitleURL (n : Node) : option (string * string) :=
  if isLink n && negb (hrefOf (Attr n) =? "") && negb (firstChildData n =? "")
  then Some (TrimSpace (firstChildData n), hrefOf (Attr n))
  else None.

(** Whether a byte string begins with the encoding of a space rune. *)
Definition headSpace (s : list ascii) : bool :=
  match s with
  | c1 :: r1 =>
      TrimSpace.space1 c1
      || match r1 with
         | c2 :: r2 =>
             TrimSpace.space2 c1 c2
             || match r2 with
                | c3 :: _ => TrimSpace.space3 c1 c2 c3
                | [] => false
                end
         | [] => false
         end
  | [] => false
  end.

(** Whether a reversed byte string begins with the reversed encoding of a
    space rune, that is, whether the string ends with a space rune. *)
Definition headSpaceRev (s : list ascii) : bool :=
  match s with
  | c1 :: r1 =>
      TrimSpace.space1 c1
      || match r1 with
         | c2 :: r2 =>
             TrimSpace.space2 c2 c1
             || match r2 with
                | c3 :: _ => TrimSpace.space3 c3 c2 c1
                | [] => false
                end
         | [] => false
         end
  | [] => false
  end.

(** Whether a probe ended in a transport error or a status of 400 or
    more. *)
Definition probeFailed (x : Exchange) : bool :=
  match ending x with
  | TransportError _ => true
  | Response StatusCode => (400 <=? StatusCode)%Z
  end.

(** Whether a probe followed a redirect. *)
Definition redirected (x : Exchange) : bool :=
  match hops x with
  | [] => false
  | _ :: _ => true
  end.

(** A probe that follows one redirect and then times out. *)
Definition redirectThenTimeout : Exchange :=
  mkExchange ["https://a.example/"] (TransportError "context deadline exceeded").

(** The duplicate columns of the row [r] are in order, [pre] being the
    rows before it: a row that refers to another is flagged and refers to
    the first of the rows before it that hold its URL; a row that refers to
    none is not flagged. *)
Definition dupRowOK (pre : list Row) (r : Row) : bool :=
  match duplicate_of r with
  | Some i =>
      is_duplicate r
      && match List.find (fun r' => url r' =? url r) pre with
         | Some r0 => (id_ r0 =? i)%Z
         | None => false
         end
  | None => negb (is_duplicate r)
  end.

Fixpoint dupRowsOK (pre rest : list Row) : bool :=
  match rest with
  | [] => true
  | r :: rest' => dupRowOK pre r && dupRowsOK (pre ++ [r]) rest'
  end.

Definition dupWellFormed (t : Store) : bool := dupRowsOK [] t.

(** A series of imports, each with its batch and the failures it meets. *)
Definition importAll (runs : list (SaveFaults * list Bookmark)) (t : Store)
    : Store :=
  fold_left (fun t run => fst (SaveBookmarks t (fst run) (snd run))) runs t.

(** What an import reads of a record. *)
Definition content (b : Bookmark) : Bookmark :=
  mkBookmark 0 (Title b) (URL b) (Folder b) false false "" false 0.

(** Every result received so far is counted once, in one class; [n] rows
    are in the table: while main drains the channel, the rows still to be
    read, the tasks still to send and the results counted add up to [n];
    when main has returned nil, the report written shows the counts, and
    the tasks that never sent are the rows it misses. *)
Definition accounted (n : nat) (c : Config) : Prop :=
  match main c with
  | Draining _ stats =>
      (total stats + length (tasks c) + length (rows c) = n)%nat
      /\ (valid stats + dead stats + redirects stats = total stats)%nat
      /\ (closed c = true -> rows c = [])
  | Returned None =>
      closed c = true
      /\ exists stats,
           report c = Some (renderReport stats)
           /\ (total stats + length (tasks c) = n)%nat
           /\ (valid stats + dead stats + redirects stats = total stats)%nat
  | Returned (Some _) => True
  end.

(** The schedule in which every task sends before the next is started
    and the channel is closed after the last has sent; [xs] are the ends
    of the probes, in the order of the rows. *)
Definition synchronised (xs : list Exchange) : list Action :=
  flat_map (fun x => [Launch; TaskResult 0 x None]) xs
  ++ [CloseResults; Finish None None None].

(** The results of probing the rows [t] with the ends [xs]. *)
Definition probeAll (t : Store) (xs : list Exchange) : list validationResult :=
  zip_with (fun r x => probeTask (id_ r) (url r) x) t xs.

(** The updates for a list of results, in order. *)
Definition updateAll (t : Store) (results : list validationResult) : Store :=
  fold_left
    (fun t result =>
       updateStatus t (vr_dead result) (vr_redirect result)
                    (vr_redirectURL result) (vr_id result))
    results t.

(** The row with the status of a result. *)
Definition withStatus (r : Row) (result : validationResult) : Row :=
  mkRow (id_ r) (title r) (url r) (folder r) (vr_dead result)
        (vr_redirect result) (Some (vr_redirectURL result))
        (is_duplicate r) (duplicate_of r).

(** ** The other exports (parser.go:383-578) *)

(** One call that writes to the file, in the two helpers. *)
Inductive HelperWrite :=
| HHeader (title : string)
| HFolderHeader (folder : string)
| HLink (b : Bookmark)
| HRedirectLink (b : Bookmark) (redirectURL : string)
| HFolderFooter
| HFooter.

Definition renderHelper (w : HelperWrite) : string :=
  match w with
  | HHeader title =>
"<!DOCTYPE NETSCAPE-Bookmark-file-1>
<!-- This is an automatically generated file.
     It will be read and overwritten.
     DO NOT EDIT! -->
<META HTTP-EQUIV=" +:+ String (ascii_of_nat 34) "Content-Type" +:+
String (ascii_of_nat 34) " CONTENT=" +:+
String (ascii_of_nat 34) "text/html; charset=UTF-8" +:+
String (ascii_of_nat 34) ">
<TITLE>" +:+ title +:+ "</TITLE>
<H1>" +:+ title +:+ "</H1>
<DL><p>
"
  | HFolderHeader folder =>
      "    <DT><H3>" +:+ folder +:+ "</H3>
    <DL><p>
"
  | HLink b =>
      "        <DT><A HREF=" +:+ String (ascii_of_nat 34) (URL b) +:+
      String (ascii_of_nat 34) ">" +:+ Title b +:+ "</A>
"
  | HRedirectLink b redirectURL =>
      "        <DT><A HREF=" +:+ String (ascii_of_nat 34) (URL b) +:+
      String (ascii_of_nat 34) ">" +:+ Title b +:+ "</A> (Redirects to: " +:+
      redirectURL +:+ ")
"
  | HFolderFooter => "    </DL><p>
"
  | HFooter => "</DL><p>
"
  end.

Definition helperContent (ws : list HelperWrite) : string :=
  fold_right (fun w s => renderHelper w +:+ s) "" ws.

(** A map from folders to the entries of the folder, in order of
    arrival (lines 442-449 and 508-523). *)
Definition groupEntries {A} (key : A -> string) (entries : list A)
    : gmap string (list A) :=
  fold_left
    (fun byFolder e => <[key e := default [] (byFolder !! key e) ++ [e]]> byFolder)
    entries ∅.

(** Lines 473-494 and 547-569, for one key of the map. *)
Definition helperFolderWrites {A} (link : A -> HelperWrite)
    (byFolder : gmap string (list A)) (folder : string) : list HelperWrite :=
  (if folder =? "" then [] else [HFolderHeader folder])
  ++ map link (default [] (byFolder !! folder))
  ++ (if folder =? "" then [] else [HFolderFooter]).

(** exportBookmarksToHTML (lines 440-503): the writes for the rows the
    query delivered, the title of the page, and the order in which the
    range meets the keys of the map. *)
Definition exportBookmarksToHTML (rows : list Row) (title : string)
    (order : list string) : list HelperWrite :=
  let bookmarksByFolder := groupEntries Folder (map scanBookmark rows) in
  [HHeader title]
  ++ concat (map (helperFolderWrites HLink bookmarksByFolder) order)
  ++ [HFooter].

(** Lines 384-389. *)
Definition selectDead (db : Store) : list Row :=
  merge_sort row_le (List.filter is_dead db).

(** ExportDeadBookmarks (lines 383-396). *)
Definition ExportDeadBookmarks (db : Store) (order : list string)
    : list HelperWrite :=
  exportBookmarksToHTML (selectDead db) "Dead Links" order.

(** Lines 400-405. *)
Definition selectRedirect (db : Store) : list Row :=
  merge_sort row_le (List.filter is_redirect db).

(** The error of [rows.Scan] for a NULL that is to go into a string. *)
Definition scanNullError : string :=
  "sql: Scan error on column index 3, name " +:+
  String (ascii_of_nat 34) "redirect_url" +:+ String (ascii_of_nat 34)
    ": converting NULL to string is unsupported".

(** Lines 513-523: the rows are scanned in order into a bookmark and its
    redirect URL; the first that fails to scan ends the export. *)
Fixpoint scanRedirects (rows : list Row) : list (Bookmark * string) + string :=
  match rows with
  | [] => inl []
  | r :: rest =>
      match redirect_url r with
      | None => inr scanNullError
      | Some redirectURL =>
          match scanRedirects rest with
          | inl entries => inl ((scanBookmark r, redirectURL) :: entries)
          | inr err => inr err
          end
      end
  end.

(** exportRedirectBookmarksToHTML (lines 506-578): the writes, or none
    when a row fails to scan, the file being created after the scan. *)
Definition exportRedirectBookmarksToHTML (rows : list Row)
    (order : list string) : option (list HelperWrite) * error :=
  match scanRedirects rows with
  | inr err => (None, Errorf "error scanning bookmark" err)
  | inl entries =>
      let bookmarksByFolder := groupEntries (fun e => Folder (fst e)) entries in
      (Some ([HHeader "Redirecting Bookmarks"]
             ++ concat (map (helperFolderWrites
                               (fun e => HRedirectLink (fst e) (snd e))
                               bookmarksByFolder) order)
             ++ [HFooter]),
       None)
  end.

(** ExportRedirectBookmarks (lines 399-412). *)
Definition ExportRedirectBookmarks (db : Store) (order : list string)
    : option (list HelperWrite) * error :=
  exportRedirectBookmarksToHTML (selectRedirect db) order.

(** The three files of an export of everything, where written. *)
Record Exported := mkExported {
  bookmarks_html : option string;
  dead_links_html : option string;
  redirects_html : option string
}.

(** ExportAllBookmarks (lines 415-437); [mkdir_fault] is the error of
    [os.MkdirAll], if any, and the three orders are those of the ranges
    of the three exports.  Creating the files and writing to them is
    taken to succeed. *)
Definition ExportAllBookmarks (db : Store) (mkdir_fault : option string)
    (order_valid order_dead order_redirect : list string)
    : Exported * error :=
  match mkdir_fault with
  | Some err =>
      (mkExported None None None, Errorf "error creating output directory" err)
  | None =>
      let valid_file := fileContent (ExportValidBookmarks db order_valid) in
      let dead_file := helperContent (ExportDeadBookmarks db order_dead) in
      match ExportRedirectBookmarks db order_redirect with
      | (Some ws, None) =>
          (mkExported (Some valid_file) (Some dead_file)
                      (Some (helperContent ws)), None)
      | (_, Some err) =>
          (mkExported (Some valid_file) (Some dead_file) None,
           Errorf "error exporting redirecting bookmarks" err)
      | (None, None) =>
          (mkExported (Some valid_file) (Some dead_file) None, None)
      end
  end.

(** The links among the writes of a helper, in order, with the redirect
    URL where one is written. *)
Definition helperLinks (ws : list HelperWrite)
    : list (Bookmark * option string) :=
  omap (fun w => match w with
                 | HLink b => Some (b, None)
                 | HRedirectLink b u => Some (b, Some u)
                 | _ => None
                 end) ws.

(** [order] is an order in which a range over the map can meet its
    keys. *)
Definition rangesOver {A} (byFolder : gmap string (list A))
    (order : list string) : Prop :=
  order ≡ₚ (map_to_list byFolder).*1.

(** Every row that redirects has a redirect URL. *)
Definition redirectOK (t : Store) : bool :=
  forallb (fun r => implb (is_redirect r)
                          (match redirect_url r with Some _ => true | None => false end))
          t.

(** A write of the valid export as a write of the helper. *)
Definition asHelperWrite (w : Write) : HelperWrite :=
  match w with
  | Header => HHeader "Bookmarks"
  | FolderHeader folder => HFolderHeader folder
  | Link b => HLink b
  | FolderFooter => HFolderFooter
  | Footer => HFooter
  end.

(** One use of the table: an import, or a validation run under a
    schedule. *)
Inductive Operation :=
| Import (f : SaveFaults) (batch : list Bookmark)
| Validate (begin_fault query_fault prepare_fault : option string)
           (schedule : list Action).

(** The table after the operation; a schedule that the run cannot follow
    leaves it as it is. *)
Definition operate (t : Store) (op : Operation) : Store :=
  match op with
  | Import f batch => fst (SaveBookmarks t f batch)
  | Validate bf qf pf schedule =>
      match exec (start t None bf qf pf) schedule with
      | Some c => store c
      | None => t
      end
  end.

(** A table with a row that is marked as redirecting and has no redirect
    URL, as an update outside this package can leave it. *)
Definition storeNullRedirect : Store :=
  [mkRow 1 "Alpha" "http://a.example/" "News" true false (Some "") false None;
   mkRow 2 "Beta" "http://b.example/" "News" false true None false None].

(** The bookmark and redirect URL of each row that has a redirect URL. *)
Definition redirectEntries (rows : list Row) : list (Bookmark * string) :=
  omap (fun r => match redirect_url r with
                 | Some u => Some (scanBookmark r, u)
                 | None => None
                 end) rows.

(** What a run keeps of [redirectOK]. *)
Definition keepsRedirectOK (c : Config) : Prop :=
  redirectOK (store c) = true
  /\ match main c with
     | Draining tx _ => redirectOK tx = true
     | Returned _ => True
     end.

(** parseBookmarks (main.go:104-122); [initdb_fault] is the error of
    [InitDB], if any, the table being there already otherwise; the second
    component is what the command prints. *)
Definition parseBookmarks (db : Store) (initdb_fault : option string)
    (opened : (Node + string) + string) (f : SaveFaults)
    : Store * option string * error :=
  match initdb_fault with
  | Some err => (db, None, Errorf "error initializing database" err)
  | None =>
      match ParseFile opened with
      | (_, Some err) => (db, None, Errorf "error parsing bookmarks file" err)
      | (bookmarks, None) =>
          match SaveBookmarks db f bookmarks with
          | (t, Some err) => (t, None, Errorf "error saving bookmarks" err)
          | (t, None) =>
              (t,
               Some ("Successfully imported " +:+ pretty (length bookmarks)
                     +:+ " bookmarks
"),
               None)
          end
      end
  end.

(** What a run that has returned an error has left: no report, and the
    table as it was unless the error is that of writing the report. *)
Definition errorLeaves (db : Store) (report0 : option string) (c : Config)
    : Prop :=
  match main c with
  | Draining _ _ => store c = db /\ report c = report0
  | Returned None => True
  | Returned (Some err) =>
      report c = report0
      /\ (store c = db
          \/ exists msg,
               err = "error creating output directory: " +:+ msg
               \/ err = "error writing report: " +:+ msg)
  end.

(** * Theorems *)

(** ** Parse *)

Lemma traverse_preorder (n : Node) :
  forall w, traverse n w = fold_left visit (preorder n) w.
Proof.
  induction n as [t d a cs IH] using Node_forall_ind.
  intros w. cbn [traverse preorder Children]. cbn [fold_left].
  generalize (visit w (mkNode t d a cs)). clear w.
  induction IH as [|c cs Hc _ IHcs]; intros w; [reflexivity|].
  rewrite fold_left_app, <- Hc. apply IHcs.
Qed.

Lemma lastLabel_snoc (pre : list Node) (n : Node) :
  lastLabel (pre ++ [n]) =
    match FirstChild n with
    | Some c => if isHeading n then Data c else lastLabel pre
    | None => lastLabel pre
    end.
Proof.
  unfold lastLabel. rewrite rev_app_distr. cbn [rev app List.find].
  unfold firstChildData, FirstChild.
  destruct (Children n) as [|c cs] eqn:E; cbn [head].
  - rewrite bool_decide_eq_false_2 by (intros H; apply H; reflexivity).
    rewrite andb_false_r. reflexivity.
  - rewrite bool_decide_eq_true_2 by discriminate.
    rewrite andb_true_r. destruct (isHeading n); [|reflexivity].
    rewrite E. reflexivity.
Qed.

Lemma visit_currentFolder (w : walk) (pre : list Node) (n : Node) :
  currentFolder w = lastLabel pre ->
  currentFolder (visit w n) = lastLabel (pre ++ [n]).
Proof.
  intros Hw. rewrite lastLabel_snoc. unfold visit, isHeading.
  destruct (isElement n); cbn [andb].
  - destruct (Data n =? "h3") eqn:E3.
    + destruct (FirstChild n); [reflexivity | exact Hw].
    + destruct (Data n =? "a");
        [destruct (_ && _)|]; cbn [currentFolder];
        destruct (FirstChild n); exact Hw.
  - destruct (FirstChild n); exact Hw.
Qed.

Lemma visit_bookmarks (w : walk) (n : Node) :
  bookmarks (visit w n) =
    bookmarks w ++ match linkRecord n (currentFolder w) with
                   | Some b => [b]
                   | None => []
                   end.
Proof.
  unfold visit, linkRecord, isLink.
  destruct (isElement n); cbn [andb]; [|symmetry; apply app_nil_r].
  destruct (Data n =? "h3") eqn:E3.
  - apply String.eqb_eq in E3. rewrite E3. cbn.
    destruct (FirstChild n); cbn; symmetry; apply app_nil_r.
  - destruct (Data n =? "a"); cbn [andb]; [|symmetry; apply app_nil_r].
    destruct (negb (hrefOf (Attr n) =? "") && negb (firstChildData n =? ""));
      [reflexivity | symmetry; apply app_nil_r].
Qed.

Lemma walk_emitted (rest : list Node) :
  forall pre w,
    currentFolder w = lastLabel pre ->
    bookmarks (fold_left visit rest w) = bookmarks w ++ emitted lastLabel pre rest.
Proof.
  induction rest as [|n rest IH]; intros pre w Hw; cbn [fold_left emitted].
  - symmetry. apply app_nil_r.
  - rewrite (IH (pre ++ [n])) by (apply visit_currentFolder; exact Hw).
    rewrite visit_bookmarks, Hw.
    destruct (linkRecord n (lastLabel pre)).
    + rewrite <- app_assoc. reflexivity.
    + rewrite app_nil_r. reflexivity.
Qed.

(** C3, as amended: in every parsed document the records are those of the
    link elements in depth-first order, and the folder of each is the data
    of the first child of the most recently visited h3 element that has a
    child (empty if there is none), whatever the nesting; in the nested
    document the link that follows the closed sub-folder gets the
    sub-folder's label. *)
Theorem Parse_folder_is_last_label (doc : Node) :
  fst (Parse (inl doc)) = emitted lastLabel [] (preorder doc)
  /\ map Folder (fst (Parse (inl nestedDoc))) = ["Outer"; "Inner"; "Inner"].
Proof.
  split; [|vm_compute; reflexivity].
  cbn [Parse fst]. rewrite traverse_preorder.
  rewrite (walk_emitted _ [] (mkWalk [] "")); reflexivity.
Qed.

(** C3, as stated, fails: after a heading without content the code keeps
    the label of the heading before it, where the text of the most recent
    heading is empty. *)
Lemma Parse_folder_not_last_heading_text :
  map Folder (fst (Parse (inl emptyHeadingDoc))) = ["A"]
  /\ map Folder (emitted lastHeadingText [] (preorder emptyHeadingDoc)) = [""]
  /\ fst (Parse (inl emptyHeadingDoc))
       <> emitted lastHeadingText [] (preorder emptyHeadingDoc).
Proof.
  split; [vm_compute; reflexivity|].
  split; [vm_compute; reflexivity|].
  vm_compute. discriminate.
Qed.

Lemma linkRecord_fields (n : Node) (folder : string) (b : Bookmark) :
  linkRecord n folder = Some b ->
  isLink n = true
  /\ URL b = hrefOf (Attr n) /\ URL b <> ""
  /\ Title b = TrimSpace (firstChildData n) /\ firstChildData n <> ""
  /\ Folder b = folder.
Proof.
  unfold linkRecord.
  destruct (isLink n); [|discriminate]. cbn [andb].
  destruct (hrefOf (Attr n) =? "") eqn:Eu; [discriminate|]. cbn [negb andb].
  destruct (firstChildData n =? "") eqn:Et; [discriminate|]. cbn [negb].
  intros [= <-]. cbn. apply String.eqb_neq in Eu, Et. auto 6.
Qed.

Lemma emitted_In (label : list Node -> string) (rest : list Node) :
  forall pre b,
    In b (emitted label pre rest) ->
    exists pre' n, In n rest /\ linkRecord n (label pre') = Some b.
Proof.
  induction rest as [|n rest IH]; intros pre b Hb; cbn [emitted] in Hb.
  - destruct Hb.
  - destruct (linkRecord n (label pre)) as [b0|] eqn:E.
    + destruct Hb as [<-|Hb].
      * exists pre, n. split; [left; reflexivity | exact E].
      * destruct (IH _ _ Hb) as [pre' [n' [Hn' Hrec]]].
        exists pre', n'. split; [right; exact Hn' | exact Hrec].
    + destruct (IH _ _ Hb) as [pre' [n' [Hn' Hrec]]].
      exists pre', n'. split; [right; exact Hn' | exact Hrec].
Qed.

(** What does hold of every record of [Parse]: it comes from a link
    element of the document, its URL is the element's href value and is
    not empty, and its title is the trimmed data of the element's first
    child, which was not empty before the trimming. *)
Lemma Parse_records (doc : Node) (b : Bookmark) :
  In b (fst (Parse (inl doc))) ->
  exists n,
    In n (preorder doc) /\ isLink n = true
    /\ URL b = hrefOf (Attr n) /\ URL b <> ""
    /\ Title b = TrimSpace (firstChildData n) /\ firstChildData n <> "".
Proof.
  cbn [Parse fst]. rewrite traverse_preorder.
  rewrite (walk_emitted _ [] (mkWalk [] "")) by reflexivity. cbn [bookmarks app].
  intros Hb. destruct (emitted_In _ _ _ _ Hb) as [pre' [n [Hn Hrec]]].
  exists n. split; [exact Hn|].
  destruct (linkRecord_fields _ _ _ Hrec) as [Hl [Hu [Hune [Ht [Htne _]]]]].
  auto 6.
Qed.

(** C7: the code emits a record with an empty title.  The test for an
    empty title (line 89) comes before the trimming (line 91), so a link
    whose text is blank passes the test and is stored with the title
    trimmed to nothing. *)
Theorem Parse_emits_empty_title :
  Parse (inl blankTitleDoc) =
    ([mkBookmark 0 "" "http://x" "" false false "" false 0], None).
Proof. vm_compute. reflexivity. Qed.

(** ** ValidateBookmark *)

Lemma followRedirects_last (hops : list string) :
  forall bookmark via d,
    via <> [] -> hops <> [] ->
    followRedirects bookmark via hops =
      mkBookmark (ID bookmark) (Title bookmark) (URL bookmark) (Folder bookmark)
                 (Dead bookmark) true (List.last hops d)
                 (Duplicate bookmark) (DuplicateOf bookmark).
Proof.
  induction hops as [|u rest IH]; intros bookmark via d Hvia Hhops.
  - contradiction.
  - cbn [followRedirects]. unfold CheckRedirect.
    destruct via as [|v via']; [contradiction|]. cbn [length Nat.leb].
    destruct rest as [|u' rest'].
    + reflexivity.
    + rewrite (IH _ _ d) by (try discriminate; destruct via'; discriminate).
      reflexivity.
Qed.

Lemma followRedirects_frame (hops : list string) :
  forall bookmark via,
    URL (followRedirects bookmark via hops) = URL bookmark
    /\ Dead (followRedirects bookmark via hops) = Dead bookmark.
Proof.
  induction hops as [|u rest IH]; intros bookmark via; [split; reflexivity|].
  cbn [followRedirects]. destruct (IH (CheckRedirect bookmark u via) (via ++ [u])) as [-> ->].
  unfold CheckRedirect. destruct (1 <=? length via)%nat; split; reflexivity.
Qed.

(** C4: [ValidateBookmark] returns a nil error on every probe; a transport
    failure marks the bookmark dead after the one [Get], and so does a
    response with status 400 or more; the result a probe task sends never
    carries an error, so the loop that receives it goes on to the
    update. *)
Theorem ValidateBookmark_returns_nil (bookmark : Bookmark) (x : Exchange) :
  snd (ValidateBookmark bookmark x) = None
  /\ match ending x with
     | TransportError _ => Dead (fst (ValidateBookmark bookmark x)) = true
     | Response StatusCode =>
         if (400 <=? StatusCode)%Z
         then Dead (fst (ValidateBookmark bookmark x)) = true
         else Dead (fst (ValidateBookmark bookmark x)) = Dead bookmark
     end
  /\ forall tx stats id url,
       vr_err (probeTask id url x) = None
       /\ receive tx stats (probeTask id url x) None =
            Draining (updateStatus tx (vr_dead (probeTask id url x))
                        (vr_redirect (probeTask id url x))
                        (vr_redirectURL (probeTask id url x)) id)
                     (count stats (probeTask id url x)).
Proof.
  assert (Herr : forall b, snd (ValidateBookmark b x) = None).
  { intros b. unfold ValidateBookmark. destruct (ending x); reflexivity. }
  split; [apply Herr|]. split.
  - unfold ValidateBookmark.
    destruct (followRedirects_frame (hops x) bookmark [URL bookmark]) as [_ Hd].
    destruct (ending x) as [msg|code]; [reflexivity|].
    destruct (400 <=? code)%Z; cbn [fst].
    + destruct (_ && _); reflexivity.
    + destruct (_ && _); cbn; exact Hd.
  - intros tx stats id url. unfold probeTask.
    specialize (Herr (mkBookmark id "" url "" false false "" false 0)).
    destruct (ValidateBookmark _ x) as [b err]. cbn [snd] in Herr. subst err.
    split; reflexivity.
Qed.

(** C5: for a probe of a bookmark not yet marked as redirecting that
    obtains a response, [Redirect] is set exactly when one or more
    redirects were followed, and [RedirectURL] is then the URL of the last
    request issued; the URLs of requests being non-empty, [RedirectURL] is
    non-empty whenever [Redirect] is set. *)
Theorem ValidateBookmark_redirect (bookmark : Bookmark) (x : Exchange)
    (StatusCode : Z) :
  Redirect bookmark = false ->
  ending x = Response StatusCode ->
  Forall (fun u => u <> "") (hops x) ->
  (Redirect (fst (ValidateBookmark bookmark x)) = true <-> hops x <> [])
  /\ (hops x <> [] ->
      RedirectURL (fst (ValidateBookmark bookmark x)) =
        finalURL (URL bookmark) (hops x))
  /\ (Redirect (fst (ValidateBookmark bookmark x)) = true ->
      RedirectURL (fst (ValidateBookmark bookmark x)) <> "").
Proof.
  intros Hfresh Hend Hne. unfold ValidateBookmark. rewrite Hend.
  destruct (hops x) as [|u rest] eqn:Eh.
  - cbn [followRedirects].
    destruct (400 <=? StatusCode)%Z;
      cbn [Redirect set_Dead]; rewrite Hfresh; cbn [andb fst Redirect set_Dead];
      rewrite Hfresh;
      (split; [split; [discriminate | intros H; contradiction]|]);
      (split; [intros H; contradiction | discriminate]).
  - rewrite (followRedirects_last (u :: rest) bookmark [URL bookmark] (URL bookmark))
      by discriminate.
    assert (Hlast : List.last (u :: rest) (URL bookmark) <> "").
    { pose proof (proj1 (List.Forall_forall _ _) Hne) as Hall.
      apply Hall. rewrite <- Eh.
      destruct (List.exists_last (l := hops x)) as [l' [a Ha]];
        [rewrite Eh; discriminate|].
      rewrite Eh in Ha. rewrite Eh, Ha, List.last_last.
      apply List.in_or_app. right. left. reflexivity. }
    apply String.eqb_neq in Hlast as Heqb.
    unfold finalURL.
    destruct (400 <=? StatusCode)%Z; cbn [fst Redirect RedirectURL set_Dead andb URL];
      rewrite Heqb; cbn [fst Redirect RedirectURL];
      (split; [split; [discriminate | reflexivity]|]);
      (split; [reflexivity | intros _; exact Hlast]).
Qed.

Lemma ValidateBookmark_redirect_witness :
  Redirect (fst (ValidateBookmark (mkBookmark 7 "" "http://a.example" "" false false "" false 0) twoHops)) = true
  /\ RedirectURL (fst (ValidateBookmark (mkBookmark 7 "" "http://a.example" "" false false "" false 0) twoHops))
       = "https://a.example/home".
Proof.
  destruct (ValidateBookmark_redirect
              (mkBookmark 7 "" "http://a.example" "" false false "" false 0)
              twoHops 200) as [Hiff [Hurl _]].
  - reflexivity.
  - reflexivity.
  - repeat constructor; discriminate.
  - split.
    + apply Hiff. discriminate.
    + rewrite Hurl by discriminate. reflexivity.
Defined.

(** ** SaveBookmarks *)

Lemma selectIDByURL_Some (t : Store) (u : string) (i : Z) :
  selectIDByURL t u = Some i -> exists r0, In r0 t /\ url r0 = u /\ id_ r0 = i.
Proof.
  unfold selectIDByURL. destruct (List.find _ t) as [r0|] eqn:E; [|discriminate].
  intros [= <-]. apply List.find_some in E as [Hin Hu].
  exists r0. split; [exact Hin|]. split; [|reflexivity].
  apply String.eqb_eq. exact Hu.
Qed.

Lemma selectIDByURL_None (t : Store) (u : string) :
  selectIDByURL t u = None -> forall r0, In r0 t -> url r0 <> u.
Proof.
  unfold selectIDByURL. destruct (List.find _ t) as [r0|] eqn:E; [discriminate|].
  intros _ r0 Hin. apply String.eqb_neq. exact (List.find_none _ _ E r0 Hin).
Qed.

(** An import is all or nothing, whatever fails in the store. *)
Lemma insertAll_all_or_nothing (db : Store) (f : SaveFaults)
    (urlMap : gmap string Z) (batch : list Bookmark) :
  forall tx i,
    (exists err, insertAll db tx f urlMap i batch = (db, Some err))
    \/ (exists rows, insertAll db tx f urlMap i batch = (tx ++ rows, None)
                     /\ length rows = length batch).
Proof.
  induction batch as [|b rest IH]; intros tx i; cbn [insertAll].
  - destruct (commit_fault f) as [msg|]; [left; eexists; reflexivity|].
    right. exists []. rewrite app_nil_r. split; reflexivity.
  - destruct (insert_fault f i) as [msg|]; [left; eexists; reflexivity|].
    match goal with |- context [insertAll db ?tx' f urlMap (S i) rest] =>
      destruct (IH tx' (S i)) as [[err Hrun] | [rows [Hrun Hlen]]] end.
    + left. exists err. exact Hrun.
    + right. rewrite Hrun.
      destruct (urlMap !! URL b); unfold insertRow; rewrite <- app_assoc;
        eexists; (split; [reflexivity|]); cbn [app length]; rewrite Hlen;
        reflexivity.
Qed.

Lemma SaveBookmarks_all_or_nothing (db : Store) (f : SaveFaults)
    (batch : list Bookmark) :
  (exists err, SaveBookmarks db f batch = (db, Some err))
  \/ (exists rows, SaveBookmarks db f batch = (db ++ rows, None)
                   /\ length rows = length batch).
Proof.
  unfold SaveBookmarks.
  destruct (begin_fault f) as [msg|]; [left; eexists; reflexivity|].
  destruct (prepare_fault f) as [msg|]; [left; eexists; reflexivity|].
  apply insertAll_all_or_nothing.
Qed.

Section ImportWithoutFailure.

Variable db : Store.
Variable f : SaveFaults.

Hypothesis lookups_work : forall i, lookup_fault f i = None.
Hypothesis inserts_work : forall i, insert_fault f i = None.
Hypothesis commit_works : commit_fault f = None.

(** The map of lines 147-154 is the snapshot of the table at the URLs of
    the batch. *)
Lemma buildURLMap_lookup (batch : list Bookmark) :
  forall i (urlMap : gmap string Z) u,
    buildURLMap db f i batch urlMap !! u =
      if bool_decide (u ∈ map URL batch)
      then match selectIDByURL db u with
           | Some existingID => Some existingID
           | None => urlMap !! u
           end
      else urlMap !! u.
Proof.
  induction batch as [|b rest IH]; intros i urlMap u; cbn [buildURLMap map].
  - rewrite bool_decide_eq_false_2 by apply not_elem_of_nil. reflexivity.
  - unfold scanExistingID. rewrite lookups_work.
    destruct (selectIDByURL db (URL b)) as [existingID|] eqn:E; rewrite IH;
      destruct (decide (u = URL b)) as [->|Hne].
    + rewrite E, (bool_decide_eq_true_2 (_ ∈ _ :: _))
        by (apply elem_of_cons; left; reflexivity).
      destruct (bool_decide _); [reflexivity | apply lookup_insert_eq].
    + rewrite lookup_insert_ne by congruence.
      rewrite (bool_decide_ext (u ∈ URL b :: map URL rest) (u ∈ map URL rest));
        [reflexivity|].
      rewrite elem_of_cons. tauto.
    + rewrite E, (bool_decide_eq_true_2 (_ ∈ _ :: _))
        by (apply elem_of_cons; left; reflexivity).
      destruct (bool_decide _); reflexivity.
    + rewrite (bool_decide_ext (u ∈ URL b :: map URL rest) (u ∈ map URL rest));
        [reflexivity|].
      rewrite elem_of_cons. tauto.
Qed.

(** Lines 166-178 append one row per record, flagged by the map. *)
Lemma insertAll_appends (urlMap : gmap string Z) (batch : list Bookmark) :
  forall tx i,
    exists rows,
      insertAll db tx f urlMap i batch = (tx ++ rows, None)
      /\ Forall2
           (fun b r =>
              title r = Title b /\ url r = URL b /\ folder r = Folder b
              /\ is_duplicate r = bool_decide (is_Some (urlMap !! URL b))
              /\ duplicate_of r = urlMap !! URL b)
           batch rows.
Proof.
  induction batch as [|b rest IH]; intros tx i; cbn [insertAll].
  - rewrite commit_works. exists []. rewrite app_nil_r. split; [reflexivity | constructor].
  - rewrite inserts_work.
    match goal with |- context [insertAll db ?tx' f urlMap (S i) rest] =>
      destruct (IH tx' (S i)) as [rows [Hrun Hrows]] end.
    destruct (urlMap !! URL b) as [duplicateID|] eqn:E; unfold insertRow in *;
      rewrite Hrun, <- app_assoc; eexists; (split; [reflexivity|]);
      (constructor; [|exact Hrows]); cbn; rewrite E; repeat split.
Qed.

Lemma SaveBookmarks_appends (batch : list Bookmark) :
  begin_fault f = None -> prepare_fault f = None ->
  exists rows,
    SaveBookmarks db f batch = (db ++ rows, None)
    /\ Forall2 (imported db) batch rows.
Proof.
  intros Hb Hp. unfold SaveBookmarks. rewrite Hb, Hp.
  destruct (insertAll_appends (buildURLMap db f 0 batch ∅) batch db 0%nat)
    as [rows [Hrun Hrows]].
  exists rows. split; [exact Hrun|].
  assert (Hsnap : forall b, In b batch ->
            buildURLMap db f 0 batch ∅ !! URL b = selectIDByURL db (URL b)).
  { intros b Hb'. rewrite buildURLMap_lookup.
    rewrite bool_decide_eq_true_2 by (apply list_elem_of_In, List.in_map; exact Hb').
    destruct (selectIDByURL db (URL b)); [reflexivity | apply lookup_empty]. }
  clear Hrun. remember (buildURLMap db f 0 batch ∅) as urlMap eqn:Hmap.
  clear Hmap. revert Hsnap.
  induction Hrows as [|b r bs rs [Ht [Hu [Hf [Hd Ho]]]] _ IH]; intros Hsnap;
    constructor.
  - rewrite (Hsnap b) in Hd, Ho by (left; reflexivity).
    unfold imported. repeat (split; [assumption|]).
    destruct (selectIDByURL db (URL b)) as [i|] eqn:E.
    + destruct (selectIDByURL_Some _ _ _ E) as [r0 [Hin [Hurl Hid]]].
      split; [split; [intros _; exists r0; auto | intros _; rewrite Hd; apply bool_decide_eq_true_2; eexists; reflexivity]|].
      split; [intros _; exists r0; subst i; auto|].
      rewrite Hd, bool_decide_eq_true_2 by (eexists; reflexivity). discriminate.
    + pose proof (selectIDByURL_None _ _ E) as Hnone.
      assert (Hfalse : is_duplicate r = false)
        by (rewrite Hd; apply bool_decide_eq_false_2; intros [? [=]]).
      split; [split; [rewrite Hfalse; discriminate | intros [r0 [Hin Hurl]]; destruct (Hnone r0 Hin Hurl)]|].
      split; [rewrite Hfalse; discriminate | intros _; exact Ho].
  - apply IH. intros b' Hb'. apply Hsnap. right. exact Hb'.
Qed.

End ImportWithoutFailure.

(** C2: an import that meets no store failure appends one row per record
    of the batch, in order; the row is flagged as a duplicate exactly when
    a row of the table as it was before the import has the same URL, and
    then refers to the id of such a row; under store failures the import
    still appends a row for every record or changes nothing; two records of
    one batch that share a URL absent from the table are both stored as
    originals, while a later import of a URL in the table is flagged
    against the row that holds it. *)
Theorem SaveBookmarks_flags_against_snapshot (db : Store)
    (batch : list Bookmark) :
  (exists rows,
     SaveBookmarks db no_faults batch = (db ++ rows, None)
     /\ Forall2 (imported db) batch rows)
  /\ (forall f,
        (exists err, SaveBookmarks db f batch = (db, Some err))
        \/ (exists rows, SaveBookmarks db f batch = (db ++ rows, None)
                         /\ length rows = length batch))
  /\ map (fun r => (is_duplicate r, duplicate_of r))
         (fst (SaveBookmarks storeWithA no_faults batchBB))
       = [(false, None); (false, None); (false, None)]
  /\ map (fun r => (id_ r, is_duplicate r, duplicate_of r))
         (fst (SaveBookmarks storeWithA no_faults batchA))
       = [(1, false, None); (2, true, Some 1)].
Proof.
  split; [apply SaveBookmarks_appends; reflexivity|].
  split; [intros f; apply SaveBookmarks_all_or_nothing|].
  split; vm_compute; reflexivity.
Qed.

(** C8: a duplicate lookup that fails in the store does not abort the
    import.  Line 151 reads the lookup's error only to tell whether a row
    was found, so the failure is taken for no rows: the record is stored
    as an original although the table holds its URL, the transaction is
    committed and the import returns nil. *)
Theorem SaveBookmarks_ignores_failed_lookup :
  SaveBookmarks storeWithA lookupsFail batchA =
    (storeWithA ++
       [mkRow 2 "T2" "http://a.example/" "Later" false false None false None],
     None).
Proof. vm_compute. reflexivity. Qed.

(** ** ValidateAndUpdateBookmarks *)

Lemma exec_app (s1 s2 : list Action) :
  forall c,
    exec c (s1 ++ s2) =
      match exec c s1 with
      | Some c' => exec c' s2
      | None => None
      end.
Proof.
  induction s1 as [|a s1 IH]; intros c; cbn [exec app]; [reflexivity|].
  destruct (step c a); [apply IH | reflexivity].
Qed.

(** Case analysis on an enabled step. *)
Ltac step_cases H :=
  unfold step in H;
  repeat match type of H with
         | context [match ?x with _ => _ end] =>
             let E := fresh "E" in destruct x eqn:E; try discriminate H
         | context [if ?x then _ else _] =>
             let E := fresh "E" in destruct x eqn:E; try discriminate H
         end;
  try (injection H as <-).

Lemma receive_cases (tx : Store) (stats : Stats) (result : validationResult)
    (exec_fault : option string) :
  (exists err, receive tx stats result exec_fault = Returned (Some err))
  \/ receive tx stats result exec_fault =
       Draining (updateStatus tx (vr_dead result) (vr_redirect result)
                              (vr_redirectURL result) (vr_id result))
                (count stats result).
Proof.
  unfold receive, Errorf.
  destruct (vr_err result); [left; eexists; reflexivity|].
  destruct exec_fault; [left; eexists; reflexivity | right; reflexivity].
Qed.

(** Once main has returned, no goroutine changes what it left behind. *)
Lemma returned_stable (c c' : Config) (a : Action) (err : error) :
  step c a = Some c' -> main c = Returned err ->
  main c' = Returned err /\ store c' = store c /\ report c' = report c.
Proof.
  intros H Hm. step_cases H; cbn; rewrite ?Hm; try congruence; auto.
Qed.

Lemma returned_stable_exec (schedule : list Action) :
  forall c c' err,
    exec c schedule = Some c' -> main c = Returned err ->
    main c' = Returned err /\ store c' = store c /\ report c' = report c.
Proof.
  induction schedule as [|a rest IH]; intros c c' err H Hm; cbn [exec] in H.
  - injection H as <-. auto.
  - destruct (step c a) as [c1|] eqn:E; [|discriminate].
    destruct (returned_stable _ _ _ _ E Hm) as [Hm1 [Hs1 Hr1]].
    destruct (IH _ _ _ H Hm1) as [Hm' [Hs' Hr']].
    rewrite Hm', Hs', Hr'. auto.
Qed.

(** While main drains the channel nothing is committed or reported. *)
Lemma draining_untouched (c c' : Config) (a : Action) tx' stats' :
  step c a = Some c' -> main c' = Draining tx' stats' ->
  (exists tx stats, main c = Draining tx stats)
  /\ store c' = store c /\ report c' = report c.
Proof.
  intros H Hm. step_cases H; cbn in *; try discriminate Hm; eauto.
Qed.

Lemma draining_untouched_exec (schedule : list Action) :
  forall c c' tx' stats',
    exec c schedule = Some c' -> main c' = Draining tx' stats' ->
    store c' = store c /\ report c' = report c.
Proof.
  induction schedule as [|a rest IH]; intros c c' tx' stats' H Hm;
    cbn [exec] in H.
  - injection H as <-. auto.
  - destruct (step c a) as [c1|] eqn:E; [|discriminate].
    destruct (IH _ _ _ _ H Hm) as [Hs Hr].
    destruct (main c1) as [tx1 stats1|err1] eqn:Hm1.
    + destruct (draining_untouched _ _ _ _ _ E Hm1) as [_ [Hs1 Hr1]].
      rewrite Hs, Hr. auto.
    + destruct (returned_stable_exec _ _ _ _ H Hm1) as [Hm' _]. congruence.
Qed.

Lemma start_untouched db report0 bf qf pf :
  store (start db report0 bf qf pf) = db
  /\ report (start db report0 bf qf pf) = report0.
Proof. unfold start. destruct bf, qf, pf; auto. Qed.

(** C1: when, in a run under any schedule, main receives a result that
    carries a scan error, the run returns the error for it, the table is
    the one before the run, whatever updates the run had applied in its
    transaction, and the report file is as the run found it. *)
Theorem scan_error_aborts_run (db : Store) (report0 : option string)
    (schedule : list Action) (msg : string) (c : Config) :
  exec (start db report0 None None None) schedule = Some c ->
  In (ScanError msg) schedule ->
  main c = Returned (Errorf "error validating bookmark" msg)
  /\ store c = db
  /\ report c = report0.
Proof.
  intros Hrun Hin. apply List.in_split in Hin as [s1 [s2 ->]].
  rewrite exec_app in Hrun.
  destruct (exec (start db report0 None None None) s1) as [c1|] eqn:E1;
    [|discriminate].
  cbn [exec] in Hrun.
  destruct (step c1 (ScanError msg)) as [c2|] eqn:E2; [|discriminate].
  assert (H2 : main c2 = Returned (Errorf "error validating bookmark" msg)
               /\ store c2 = store c1 /\ report c2 = report c1
               /\ exists tx stats, main c1 = Draining tx stats).
  { clear Hrun. step_cases E2. cbn. eauto 6. }
  destruct H2 as [Hm2 [Hs2 [Hr2 [tx [stats Hm1]]]]].
  destruct (draining_untouched_exec _ _ _ _ _ E1 Hm1) as [Hs1 Hr1].
  destruct (returned_stable_exec _ _ _ _ Hrun Hm2) as [Hm [Hs Hr]].
  destruct (start_untouched db report0 None None None) as [Hs0 Hr0].
  split; [exact Hm|]. split; congruence.
Qed.

Lemma scan_error_aborts_run_witness :
  (exists c, exec (start storeAB (Some "old report") None None None)
                  scheduleScanError = Some c
             /\ main c = Returned (Errorf "error validating bookmark"
                                     "converting NULL to string")
             /\ store c = storeAB
             /\ report c = Some "old report").
Proof.
  eexists. split; [vm_compute; reflexivity|].
  apply (scan_error_aborts_run storeAB (Some "old report") scheduleScanError
           "converting NULL to string").
  - vm_compute. reflexivity.
  - right. right. left. reflexivity.
Defined.

(** C6: the channel is closed while a launched task has yet to send.
    With one row in the table the producer starts the task, leaves its
    loop and runs the deferred close (line 215) without waiting for the
    task; main finds the channel closed, commits no update and reports a
    total of 0; the task then sends on the closed channel, which
    panics. *)
Theorem results_closed_before_task_sends :
  ValidateAndUpdateBookmarks storeWithA scheduleEarlyClose =
    Some (mkConfig storeWithA (Some (renderReport (mkStats 0 0 0 0))) []
                   9 [(1, "http://a.example/")] true (Returned None) false)
  /\ (panicked <$>
        ValidateAndUpdateBookmarks storeWithA
          (scheduleEarlyClose ++ [TaskResult 0 twoHops None])) = Some true.
Proof. split; vm_compute; reflexivity. Qed.

Lemma updateStatus_frame (t : Store) (dead redirect : bool)
    (redirectURL : string) (id : Z) :
  Forall2 (fun r r' => frame r' = frame r /\ (id_ r <> id -> r' = r))
          t (updateStatus t dead redirect redirectURL id).
Proof.
  unfold updateStatus. induction t as [|r t IH]; cbn [map]; constructor;
    [|exact IH].
  destruct (Z.eqb_spec (id_ r) id); split; try reflexivity; contradiction.
Qed.

Lemma updateStatus_map_frame (t : Store) dead redirect redirectURL id :
  map frame (updateStatus t dead redirect redirectURL id) = map frame t.
Proof.
  pose proof (updateStatus_frame t dead redirect redirectURL id) as H.
  induction H as [|r r' t t' [Hf _] _ IH]; cbn [map]; congruence.
Qed.

Lemma step_keepsFrame (db : Store) (c c' : Config) (a : Action) :
  step c a = Some c' -> keepsFrame db c -> keepsFrame db c'.
Proof.
  unfold keepsFrame. intros H [Hs Hm].
  step_cases H; cbn in *; rewrite ?E, ?E0, ?E1, ?E2 in *; cbn in *; auto;
    try match goal with
        | |- _ /\ match receive ?tx ?st ?res ?fault with _ => _ end =>
            split; [assumption|];
            destruct (receive_cases tx st res fault) as [[err ->] | ->];
            [exact I | rewrite updateStatus_map_frame; assumption]
        end.
Qed.

Lemma exec_keepsFrame (db : Store) (schedule : list Action) :
  forall c c', exec c schedule = Some c' -> keepsFrame db c -> keepsFrame db c'.
Proof.
  induction schedule as [|a rest IH]; intros c c' H Hk; cbn [exec] in H.
  - injection H as <-. exact Hk.
  - destruct (step c a) as [c1|] eqn:E; [|discriminate].
    exact (IH _ _ H (step_keepsFrame _ _ _ _ E Hk)).
Qed.

Lemma start_keepsFrame db report0 bf qf pf :
  keepsFrame db (start db report0 bf qf pf).
Proof. unfold keepsFrame, start. destruct bf, qf, pf; cbn; auto. Qed.

(** C10: the update of one result leaves every row whose id differs from
    the result's as it is, and changes in the others the three status
    columns only; so a run under any schedule, whether it commits or
    aborts, leaves id, title, url, folder, is_duplicate and duplicate_of of
    every row as they were, and so does a further run on the table the
    first one left. *)
Theorem validation_changes_status_only (db : Store)
    (report0 report1 : option string) (bf qf pf bf' qf' pf' : option string)
    (schedule schedule' : list Action) (c c' : Config) :
  exec (start db report0 bf qf pf) schedule = Some c ->
  exec (start (store c) report1 bf' qf' pf') schedule' = Some c' ->
  (forall tx dead redirect redirectURL id,
     Forall2 (fun r r' => frame r' = frame r /\ (id_ r <> id -> r' = r))
             tx (updateStatus tx dead redirect redirectURL id))
  /\ map frame (store c) = map frame db
  /\ map frame (store c') = map frame db.
Proof.
  intros Hrun Hrun'. split; [intros; apply updateStatus_frame|].
  destruct (exec_keepsFrame db _ _ _ Hrun (start_keepsFrame _ _ _ _ _)) as [H1 _].
  destruct (exec_keepsFrame (store c) _ _ _ Hrun' (start_keepsFrame _ _ _ _ _))
    as [H2 _].
  split; congruence.
Qed.

Lemma validation_changes_status_only_witness :
  exists c c',
    exec (start storeAB None None None None) scheduleComplete = Some c
    /\ exec (start (store c) (report c) None None None) scheduleScanError = Some c'
    /\ store c <> storeAB
    /\ map frame (store c) = map frame storeAB
    /\ map frame (store c') = map frame storeAB.
Proof.
  eexists. eexists.
  split; [vm_compute; reflexivity|].
  split; [vm_compute; reflexivity|].
  split; [vm_compute; discriminate|].
  eapply (validation_changes_status_only storeAB None _ None None None
            None None None scheduleComplete scheduleScanError).
  - vm_compute. reflexivity.
  - vm_compute. reflexivity.
Defined.

(** ** ExportValidBookmarks *)

#[local] Instance row_le_total : Total row_le.
Proof.
  intros r1 r2. unfold row_le, row_leb.
  rewrite (String.compare_antisym (folder r2) (folder r1)).
  destruct (String.compare (folder r1) (folder r2)); cbn [CompOpp]; auto.
  apply String.leb_total.
Qed.

Lemma fold_group_lookup (bs : list Bookmark) :
  forall (m : gmap string (list Bookmark)) f,
    fold_left
      (fun bookmarksByFolder b =>
         <[Folder b := default [] (bookmarksByFolder !! Folder b) ++ [b]]>
           bookmarksByFolder)
      bs m !! f =
    match filter (fun b => Folder b = f) bs with
    | [] => m !! f
    | l => Some (default [] (m !! f) ++ l)
    end.
Proof.
  induction bs as [|b bs IH]; intros m f; cbn [fold_left]; [reflexivity|].
  rewrite IH, filter_cons. destruct (decide (Folder b = f)) as [<-|Hne].
  - rewrite lookup_insert_eq. cbn [default].
    destruct (filter _ bs); [reflexivity|]. unfold id.
    rewrite <- app_assoc. reflexivity.
  - rewrite lookup_insert_ne by exact Hne. reflexivity.
Qed.

Lemma groupByFolder_lookup (bs : list Bookmark) (f : string) :
  default [] (groupByFolder bs !! f) = filter (fun b => Folder b = f) bs.
Proof.
  unfold groupByFolder. rewrite fold_group_lookup, lookup_empty.
  destruct (filter _ bs); reflexivity.
Qed.

Lemma groupByFolder_keys (bs : list Bookmark) (b : Bookmark) :
  b ∈ bs -> Folder b ∈ (map_to_list (groupByFolder bs)).*1.
Proof.
  intros Hb. apply list_elem_of_fmap.
  exists (Folder b, filter (fun b' => Folder b' = Folder b) bs).
  split; [reflexivity|]. apply elem_of_map_to_list.
  unfold groupByFolder. rewrite fold_group_lookup, lookup_empty.
  destruct (filter _ bs) as [|b0 l] eqn:E; [|reflexivity].
  exfalso. eapply (filter_nil_not_elem_of _ _ b E); [reflexivity | exact Hb].
Qed.

Lemma links_app (ws1 ws2 : list Write) :
  links (ws1 ++ ws2) = links ws1 ++ links ws2.
Proof. apply omap_app. Qed.

Lemma links_Link (bs : list Bookmark) : links (map Link bs) = bs.
Proof.
  induction bs as [|b bs IH]; [reflexivity|].
  change (links (map Link (b :: bs))) with (b :: links (map Link bs)).
  rewrite IH. reflexivity.
Qed.

Lemma links_folderWrites (m : gmap string (list Bookmark)) (f : string) :
  links (folderWrites m f) = default [] (m !! f).
Proof.
  unfold folderWrites. rewrite !links_app, links_Link.
  destruct (f =? ""); cbn [app];
    [|change (links [FolderHeader f]) with (@nil Bookmark);
      change (links [FolderFooter]) with (@nil Bookmark)];
    cbn [app]; apply app_nil_r.
Qed.

Lemma links_ExportValidBookmarks (db : Store) (order : list string) :
  links (ExportValidBookmarks db order) =
    concat (map (fun f => filter (fun b => Folder b = f)
                                 (map scanBookmark (selectValid db))) order).
Proof.
  unfold ExportValidBookmarks. rewrite !links_app.
  change (links [Header]) with (@nil Bookmark).
  change (links [Footer]) with (@nil Bookmark).
  rewrite app_nil_r. cbn [app].
  induction order as [|f order IH]; [reflexivity|].
  cbn [map concat]. rewrite links_app, IH, links_folderWrites, groupByFolder_lookup.
  reflexivity.
Qed.

(** Ranging over folders that are met once each collects every record
    once. *)
Lemma concat_by_folder (order : list string) :
  NoDup order ->
  forall bs : list Bookmark,
    (forall b, b ∈ bs -> Folder b ∈ order) ->
    concat (map (fun f => filter (fun b => Folder b = f) bs) order) ≡ₚ bs.
Proof.
  induction 1 as [|f0 order Hnotin _ IH]; intros bs Hcover; cbn [map concat].
  - destruct bs as [|b bs]; [reflexivity|].
    destruct (not_elem_of_nil (Folder b)). apply Hcover. left.
  - etransitivity; [|apply (filter_app_complement (fun b => Folder b = f0) bs)].
    apply Permutation_app_head.
    etransitivity;
      [|apply (IH (filter (fun b => ~ Folder b = f0) bs))].
    + erewrite List.map_ext_in; [reflexivity|].
      intros f Hf. cbn beta. rewrite list_filter_filter.
      apply list_filter_iff. intros b. split; [|tauto].
      intros <-. split; [reflexivity|].
      intros Heq. apply Hnotin. rewrite <- Heq. apply list_elem_of_In. exact Hf.
    + intros b Hb. apply list_elem_of_filter in Hb as [Hne Hb].
      specialize (Hcover b Hb). apply elem_of_cons in Hcover as [Heq|Hin];
        [contradiction | exact Hin].
Qed.

Lemma filter_isValid_idem (db : Store) :
  List.filter isValid (List.filter isValid db) = List.filter isValid db.
Proof.
  induction db as [|r db IH]; [reflexivity|]. cbn [List.filter].
  destruct (isValid r) eqn:E; [|exact IH].
  cbn [List.filter]. rewrite E, IH. reflexivity.
Qed.



(** * Further properties *)

(** ** Parse and ParseFile *)

Lemma emitted_split (label : list Node -> string) (rest : list Node) :
  forall pre b,
    In b (emitted label pre rest) ->
    exists l1 n l2,
      rest = l1 ++ n :: l2 /\ linkRecord n (label (pre ++ l1)) = Some b.
Proof.
  induction rest as [|n rest IH]; intros pre b Hb; cbn [emitted] in Hb.
  - destruct Hb.
  - assert (Hlater : In b (emitted label (pre ++ [n]) rest) ->
              exists l1 n' l2,
                n :: rest = l1 ++ n' :: l2
                /\ linkRecord n' (label (pre ++ l1)) = Some b).
    { intros H. destruct (IH _ _ H) as [l1 [n' [l2 [-> Hrec]]]].
      exists (n :: l1), n', l2. split; [reflexivity|].
      rewrite <- app_assoc in Hrec. exact Hrec. }
    destruct (linkRecord n (label pre)) as [b0|] eqn:E; [|auto].
    destruct Hb as [<-|Hb]; [|auto].
    exists [], n, rest. rewrite app_nil_r. auto.
Qed.

Lemma lastLabel_origin (pre : list Node) :
  lastLabel pre = ""
  \/ exists h, In h pre /\ isHeading h = true /\ lastLabel pre = firstChildData h.
Proof.
  unfold lastLabel.
  destruct (List.find _ (rev pre)) as [h|] eqn:E; [right | left; reflexivity].
  apply List.find_some in E as [Hin Hh].
  apply andb_true_iff in Hh as [Hh _].
  exists h. split; [apply List.in_rev; exact Hin | auto].
Qed.

(** X1: every record of [Parse] comes from a link element of the
    document; its URL is the element's href value and is not empty; its
    title is the trimmed data of the element's first child, and that data
    was not empty before the trimming. *)
Theorem Parse_record_origin (doc : Node) (b : Bookmark) :
  In b (fst (Parse (inl doc))) ->
  exists n,
    In n (preorder doc) /\ isLink n = true
    /\ URL b = hrefOf (Attr n) /\ URL b <> ""
    /\ Title b = TrimSpace (firstChildData n) /\ firstChildData n <> "".
Proof. apply Parse_records. Qed.

Lemma Parse_record_origin_witness :
  exists n,
    In n (preorder nestedDoc) /\ isLink n = true
    /\ "u2" = hrefOf (Attr n) /\ "u2" <> ""
    /\ "two" = TrimSpace (firstChildData n) /\ firstChildData n <> "".
Proof.
  apply (Parse_record_origin nestedDoc
           (mkBookmark 0 "two" "u2" "Inner" false false "" false 0)).
  vm_compute. right. left. reflexivity.
Defined.

(** X2: the titles and URLs of the records of [Parse] are those of the
    link elements that have a non-empty href and a non-empty first child,
    one record per element, in document order; nothing is merged, dropped
    or reordered, and headings bear on the folder only. *)
Theorem Parse_titles_urls_in_document_order (doc : Node) :
  map (fun b => (Title b, URL b)) (fst (Parse (inl doc)))
    = omap linkTitleURL (preorder doc).
Proof.
  cbn [Parse fst]. rewrite traverse_preorder.
  rewrite (walk_emitted _ [] (mkWalk [] "")) by reflexivity. cbn [bookmarks app].
  generalize (@nil Node). induction (preorder doc) as [|n rest IH]; intros pre;
    [reflexivity|].
  cbn [emitted]. change (omap linkTitleURL (n :: rest))
    with (match linkTitleURL n with
          | Some p => p :: omap linkTitleURL rest
          | None => omap linkTitleURL rest
          end).
  unfold linkRecord, linkTitleURL.
  destruct (isLink n && negb (hrefOf (Attr n) =? "")
            && negb (firstChildData n =? "")); cbn [map]; rewrite IH;
    reflexivity.
Qed.

(** X3: the folder of a record of [Parse] is empty or is the data of the
    first child of an h3 element of the same document; a document without
    h3 elements yields records with the empty folder only. *)
Theorem Parse_folder_origin (doc : Node) (b : Bookmark) :
  In b (fst (Parse (inl doc))) ->
  Folder b = ""
  \/ exists h, In h (preorder doc) /\ isHeading h = true
               /\ Folder b = firstChildData h.
Proof.
  cbn [Parse fst]. rewrite traverse_preorder.
  rewrite (walk_emitted _ [] (mkWalk [] "")) by reflexivity. cbn [bookmarks app].
  intros Hb. destruct (emitted_split _ _ _ _ Hb) as [l1 [n [l2 [Hsplit Hrec]]]].
  destruct (linkRecord_fields _ _ _ Hrec) as [_ [_ [_ [_ [_ Hf]]]]].
  cbn [app] in Hf. destruct (lastLabel_origin l1) as [He|[h [Hin [Hh Hl]]]].
  - left. congruence.
  - right. exists h. split; [|split; [exact Hh | congruence]].
    rewrite Hsplit. apply List.in_or_app. left. exact Hin.
Qed.

Lemma Parse_folder_origin_witness :
  "Inner" = ""
  \/ exists h, In h (preorder nestedDoc) /\ isHeading h = true
               /\ "Inner" = firstChildData h.
Proof.
  apply (Parse_folder_origin nestedDoc
           (mkBookmark 0 "three" "u3" "Inner" false false "" false 0)).
  vm_compute. right. right. left. reflexivity.
Defined.

(** ** strings.TrimSpace *)

(** One round of trimming, for either end: the string does not begin
    with a space rune and stays, or loses a rune and is trimmed further. *)
Ltac trim_round f :=
  intros [|c1 r1]; [left; split; reflexivity|];
  cbn [f headSpace headSpaceRev];
  destruct (TrimSpace.space1 c1) eqn:E1;
    [right; split; [reflexivity|]; exists [c1], r1;
     split; [discriminate | split; reflexivity]|];
  destruct r1 as [|c2 r2]; [left; split; reflexivity|];
  cbn [orb];
  match goal with
  | |- context [if ?b then _ else _] =>
      destruct b eqn:E2;
        [right; split; [reflexivity|]; exists [c1; c2], r2;
         split; [discriminate | split; reflexivity]|]
  end;
  destruct r2 as [|c3 r3]; [left; split; reflexivity|];
  cbn [orb];
  match goal with
  | |- context [if ?b then _ else _] =>
      destruct b eqn:E3;
        [right; split; [reflexivity|]; exists [c1; c2; c3], r3;
         split; [discriminate | split; reflexivity]
        |left; split; reflexivity]
  end.

Lemma trimLeft_round :
  forall s,
    (headSpace s = false /\ TrimSpace.trimLeft s = s)
    \/ (headSpace s = true
        /\ exists p s', p <> [] /\ s = p ++ s'
                        /\ TrimSpace.trimLeft s = TrimSpace.trimLeft s').
Proof. trim_round TrimSpace.trimLeft. Qed.

Lemma trimRightRev_round :
  forall s,
    (headSpaceRev s = false /\ TrimSpace.trimRightRev s = s)
    \/ (headSpaceRev s = true
        /\ exists p s', p <> [] /\ s = p ++ s'
                        /\ TrimSpace.trimRightRev s = TrimSpace.trimRightRev s').
Proof. trim_round TrimSpace.trimRightRev. Qed.

Section Trimming.

Variable trim : list ascii -> list ascii.
Variable head : list ascii -> bool.

Hypothesis round :
  forall s,
    (head s = false /\ trim s = s)
    \/ (head s = true
        /\ exists p s', p <> [] /\ s = p ++ s' /\ trim s = trim s').

(** What is left does not begin with a space rune, is not trimmed
    further, and is a suffix of the string. *)
Lemma trim_result (s : list ascii) :
  head (trim s) = false
  /\ trim (trim s) = trim s
  /\ exists p, s = p ++ trim s.
Proof.
  remember (length s) as n eqn:Hn. assert (Hlen : (length s <= n)%nat) by lia.
  clear Hn. revert s Hlen.
  induction n as [|n IH]; intros s Hlen;
    (destruct (round s) as [[Hh Ht] | [_ [p [s' [Hp [Hs Ht]]]]]];
     [rewrite !Ht; split; [exact Hh|]; split; [reflexivity|];
      exists []; reflexivity|]).
  - destruct s; [|cbn in Hlen; lia].
    destruct p; [contradiction | discriminate].
  - assert (Hs' : (length s' <= n)%nat).
    { rewrite Hs, length_app in Hlen. destruct p; [contradiction|].
      cbn in Hlen. lia. }
    destruct (IH s' Hs') as [Hh [Hi [q Hq]]].
    rewrite !Ht. split; [exact Hh|]. split; [exact Hi|].
    exists (p ++ q). rewrite <- app_assoc, <- Hq. exact Hs.
Qed.

End Trimming.

Lemma headSpace_prefix (p q : list ascii) :
  headSpace p = true -> headSpace (p ++ q) = true.
Proof.
  destruct p as [|c1 [|c2 [|c3 p]]]; cbn [headSpace app]; try discriminate.
  - rewrite orb_false_r. intros ->. reflexivity.
  - rewrite orb_false_r. intros H.
    apply orb_true_iff in H as [->| ->]; [reflexivity|].
    cbn [orb]. apply orb_true_r.
  - intros H. exact H.
Qed.

(** The right end is trimmed off a string: what is left is a prefix. *)
Lemma trimRight_prefix (a : list ascii) :
  exists q, a = TrimSpace.trimRight a ++ q.
Proof.
  destruct (trim_result _ _ trimRightRev_round (rev a)) as [_ [_ [p Hp]]].
  exists (rev p). unfold TrimSpace.trimRight.
  rewrite <- rev_app_distr, <- Hp, rev_involutive. reflexivity.
Qed.

Lemma TrimSpace_idempotent (s : string) :
  TrimSpace (TrimSpace s) = TrimSpace s.
Proof.
  unfold TrimSpace. rewrite String.list_ascii_of_string_of_list_ascii.
  set (a := TrimSpace.trimLeft (String.list_ascii_of_string s)).
  f_equal.
  destruct (trim_result _ _ trimLeft_round (String.list_ascii_of_string s))
    as [Hhead _]. fold a in Hhead.
  destruct (trim_result _ _ trimRightRev_round (rev a)) as [_ [Hidem _]].
  destruct (trimRight_prefix a) as [q Hq].
  assert (Hleft : TrimSpace.trimLeft (TrimSpace.trimRight a) = TrimSpace.trimRight a).
  { destruct (trimLeft_round (TrimSpace.trimRight a)) as [[_ Ht] | [Hh _]];
      [exact Ht|].
    apply (headSpace_prefix _ q) in Hh. rewrite <- Hq in Hh. congruence. }
  rewrite Hleft. unfold TrimSpace.trimRight.
  rewrite rev_involutive, Hidem. reflexivity.
Qed.

(** X4: the title of every record of [Parse] is a trimmed string:
    trimming it again changes nothing. *)
Theorem Parse_titles_are_trimmed (doc : Node) (b : Bookmark) :
  In b (fst (Parse (inl doc))) -> TrimSpace (Title b) = Title b.
Proof.
  intros Hb. destruct (Parse_records doc b Hb) as [n [_ [_ [_ [_ [Ht _]]]]]].
  rewrite Ht. apply TrimSpace_idempotent.
Qed.

Lemma Parse_titles_are_trimmed_witness :
  TrimSpace "two" = "two".
Proof.
  apply (Parse_titles_are_trimmed nestedDoc
           (mkBookmark 0 "two" "u2" "Inner" false false "" false 0)).
  vm_compute. right. left. reflexivity.
Defined.

(** [TrimSpace] removes bytes from the two ends only: the result is
    a contiguous part of the string, and it neither begins nor ends with
    the encoding of a space rune. *)
Theorem TrimSpace_is_infix (s : string) :
  exists p q,
    String.list_ascii_of_string s =
      p ++ String.list_ascii_of_string (TrimSpace s) ++ q
    /\ headSpace (String.list_ascii_of_string (TrimSpace s)) = false
    /\ headSpaceRev (rev (String.list_ascii_of_string (TrimSpace s))) = false.
Proof.
  unfold TrimSpace. rewrite String.list_ascii_of_string_of_list_ascii.
  set (a := TrimSpace.trimLeft (String.list_ascii_of_string s)).
  destruct (trim_result _ _ trimLeft_round (String.list_ascii_of_string s))
    as [Hhead [_ [p Hp]]]. fold a in Hhead, Hp.
  destruct (trimRight_prefix a) as [q Hq].
  exists p, q. split; [rewrite <- Hq; exact Hp|]. split.
  - destruct (headSpace (TrimSpace.trimRight a)) eqn:E; [|reflexivity].
    apply (headSpace_prefix _ q) in E. rewrite <- Hq in E. congruence.
  - unfold TrimSpace.trimRight. rewrite rev_involutive.
    apply (trim_result _ _ trimRightRev_round (rev a)).
Qed.

(** ** ValidateBookmark, further *)

Lemma followRedirects_cases (bookmark : Bookmark) (x : Exchange) :
  followRedirects bookmark [URL bookmark] (hops x) =
    if redirected x
    then mkBookmark (ID bookmark) (Title bookmark) (URL bookmark)
           (Folder bookmark) (Dead bookmark) true
           (finalURL (URL bookmark) (hops x))
           (Duplicate bookmark) (DuplicateOf bookmark)
    else bookmark.
Proof.
  unfold redirected, finalURL. destruct (hops x) as [|u rest] eqn:E.
  - reflexivity.
  - apply followRedirects_last; discriminate.
Qed.

(** X5: a probe never changes the ID, Title, URL, Folder, Duplicate and
    DuplicateOf of the bookmark; it only ever sets the two flags: Dead
    becomes true exactly when it was so or the probe ended in a transport
    error or a status of 400 or more, Redirect exactly when it was so or
    a redirect was followed. *)
Theorem ValidateBookmark_sets_flags_only (bookmark : Bookmark) (x : Exchange) :
  ID (fst (ValidateBookmark bookmark x)) = ID bookmark
  /\ Title (fst (ValidateBookmark bookmark x)) = Title bookmark
  /\ URL (fst (ValidateBookmark bookmark x)) = URL bookmark
  /\ Folder (fst (ValidateBookmark bookmark x)) = Folder bookmark
  /\ Duplicate (fst (ValidateBookmark bookmark x)) = Duplicate bookmark
  /\ DuplicateOf (fst (ValidateBookmark bookmark x)) = DuplicateOf bookmark
  /\ Dead (fst (ValidateBookmark bookmark x)) = Dead bookmark || probeFailed x
  /\ Redirect (fst (ValidateBookmark bookmark x))
       = Redirect bookmark || redirected x.
Proof.
  unfold ValidateBookmark, probeFailed. rewrite followRedirects_cases.
  destruct (ending x) as [msg|code]; destruct (redirected x);
    try destruct (400 <=? code)%Z;
    cbn [fst ID Title URL Folder Duplicate DuplicateOf Dead Redirect RedirectURL
         set_Dead set_RedirectURL andb];
    try match goal with
        | |- context [if ?b then _ else _] => destruct b
        end;
    cbn [fst ID Title URL Folder Duplicate DuplicateOf Dead Redirect RedirectURL
         set_Dead set_RedirectURL];
    rewrite ?orb_true_r, ?orb_false_r; repeat split.
Qed.

(** X6: a probe that follows a redirect and then fails leaves the
    bookmark both dead and redirecting, with the URL of the last request
    as its redirect URL; the run counts such a result as dead and not as a
    redirect. *)
Theorem redirected_then_failed (id : Z) (url : string) (x : Exchange)
    (stats : Stats) :
  redirected x = true ->
  probeFailed x = true ->
  vr_dead (probeTask id url x) = true
  /\ vr_redirect (probeTask id url x) = true
  /\ vr_redirectURL (probeTask id url x) = finalURL url (hops x)
  /\ count stats (probeTask id url x) =
       mkStats (S (total stats)) (S (dead stats)) (redirects stats) (valid stats).
Proof.
  intros Hr Hf. unfold probeTask, ValidateBookmark, probeFailed in *.
  rewrite followRedirects_cases, Hr.
  cbn [URL Redirect RedirectURL Dead ID].
  destruct (ending x) as [msg|code].
  - cbn. repeat split.
  - rewrite Hf. cbn [set_Dead Redirect RedirectURL andb URL].
    destruct (finalURL url (hops x) =? "") eqn:E.
    + cbn. repeat split.
    + cbn. repeat split.
Qed.

Lemma redirected_then_failed_witness :
  vr_dead (probeTask 1 "http://a.example/" redirectThenTimeout) = true
  /\ vr_redirect (probeTask 1 "http://a.example/" redirectThenTimeout) = true.
Proof.
  destruct (redirected_then_failed 1 "http://a.example/" redirectThenTimeout
              (mkStats 0 0 0 0)) as [Hd [Hr _]].
  - reflexivity.
  - reflexivity.
  - split; [exact Hd | exact Hr].
Defined.

(** ** SaveBookmarks, further *)

Lemma fold_max_app (l1 l2 : list Z) :
  fold_right Z.max 0 (l1 ++ l2)
    = Z.max (fold_right Z.max 0 l1) (fold_right Z.max 0 l2).
Proof.
  induction l1 as [|z l1 IH]; cbn [fold_right app].
  - assert (H : 0 <= fold_right Z.max 0 l2)
      by (induction l2; cbn [fold_right]; lia).
    lia.
  - rewrite IH. lia.
Qed.

Lemma fold_max_bounds (l : list Z) :
  0 <= fold_right Z.max 0 l /\ forall z, In z l -> z <= fold_right Z.max 0 l.
Proof.
  induction l as [|z0 l [IH0 IH]]; cbn [fold_right].
  - split; [lia | intros z []].
  - split; [lia|]. intros z [<-|Hz]; [lia|]. specialize (IH z Hz). lia.
Qed.

Lemma nextID_above (t : Store) (r : Row) : In r t -> id_ r < nextID t.
Proof.
  intros Hr. unfold nextID.
  destruct (fold_max_bounds (map id_ t)) as [_ H].
  specialize (H (id_ r) (List.in_map id_ _ _ Hr)). lia.
Qed.

Lemma nextID_insertRow (t : Store) title url folder dup dupOf :
  nextID (insertRow t title url folder dup dupOf) = nextID t + 1.
Proof.
  unfold insertRow, nextID at 1. rewrite map_app, fold_max_app.
  cbn [map fold_right id_]. unfold nextID.
  destruct (fold_max_bounds (map id_ t)) as [H0 _]. lia.
Qed.

Lemma insertAll_ids (db : Store) (f : SaveFaults) (urlMap : gmap string Z)
    (batch : list Bookmark) :
  forall tx i t',
    insertAll db tx f urlMap i batch = (t', None) ->
    exists rows,
      t' = tx ++ rows
      /\ map id_ rows =
           map (fun k => nextID tx + Z.of_nat k) (seq 0 (length batch)).
Proof.
  induction batch as [|b rest IH]; intros tx i t' Hrun; cbn [insertAll] in Hrun.
  - destruct (commit_fault f); [discriminate|]. injection Hrun as <-.
    exists []. rewrite app_nil_r. split; reflexivity.
  - destruct (insert_fault f i); [discriminate|].
    apply IH in Hrun as [rows [-> Hids]].
    assert (Hrow : exists r,
               id_ r = nextID tx
               /\ (match urlMap !! URL b with
                   | Some duplicateID =>
                       insertRow tx (Title b) (URL b) (Folder b) true (Some duplicateID)
                   | None => insertRow tx (Title b) (URL b) (Folder b) false None
                   end) = tx ++ [r]).
    { destruct (urlMap !! URL b); eexists; (split; [|reflexivity]); reflexivity. }
    destruct Hrow as [r [Hid Hrow]].
    assert (Hnext : nextID (tx ++ [r]) = nextID tx + 1).
    { rewrite <- Hrow. destruct (urlMap !! URL b); apply nextID_insertRow. }
    rewrite Hrow in Hids |- *. rewrite Hnext in Hids.
    exists (r :: rows). split; [rewrite <- app_assoc; reflexivity|].
    cbn [length seq map]. rewrite Hid, Hids, <- seq_shift, map_map.
    f_equal; [lia|]. apply map_ext. intros k. lia.
Qed.

(** X7: an import that succeeds gives its rows the ids that follow the
    largest id of the table, one after the other in the order of the
    batch; they are greater than every id the table had. *)
Theorem SaveBookmarks_assigns_fresh_ids (db : Store) (f : SaveFaults)
    (batch : list Bookmark) (t' : Store) :
  SaveBookmarks db f batch = (t', None) ->
  exists rows,
    t' = db ++ rows
    /\ map id_ rows =
         map (fun k => nextID db + Z.of_nat k) (seq 0 (length batch))
    /\ (forall r0 r, In r0 db -> In r rows -> id_ r0 < id_ r).
Proof.
  unfold SaveBookmarks. intros Hrun.
  destruct (begin_fault f); [discriminate|].
  destruct (prepare_fault f); [discriminate|].
  apply insertAll_ids in Hrun as [rows [-> Hids]].
  exists rows. split; [reflexivity|]. split; [exact Hids|].
  intros r0 r Hr0 Hr. apply (List.in_map id_) in Hr. rewrite Hids in Hr.
  apply List.in_map_iff in Hr as [k [<- _]].
  pose proof (nextID_above db r0 Hr0). lia.
Qed.

Lemma SaveBookmarks_assigns_fresh_ids_witness :
  exists rows,
    fst (SaveBookmarks storeWithA no_faults batchBB) = storeWithA ++ rows
    /\ map id_ rows = [2; 3].
Proof.
  destruct (SaveBookmarks_assigns_fresh_ids storeWithA no_faults batchBB
              (fst (SaveBookmarks storeWithA no_faults batchBB)))
    as [rows [Hrows [Hids _]]].
  - vm_compute. reflexivity.
  - exists rows. split; [exact Hrows | exact Hids].
Defined.

Lemma buildURLMap_sound (db : Store) (f : SaveFaults) (batch : list Bookmark) :
  forall i (urlMap : gmap string Z),
    (forall u d, urlMap !! u = Some d -> selectIDByURL db u = Some d) ->
    forall u d,
      buildURLMap db f i batch urlMap !! u = Some d ->
      selectIDByURL db u = Some d.
Proof.
  induction batch as [|b rest IH]; intros i urlMap Hm u d; cbn [buildURLMap].
  - apply Hm.
  - unfold scanExistingID. destruct (lookup_fault f i) as [msg|].
    + apply IH. exact Hm.
    + destruct (selectIDByURL db (URL b)) as [existingID|] eqn:E.
      * apply IH. intros u' d'. destruct (decide (URL b = u')) as [<-|Hne].
        -- rewrite lookup_insert_eq. congruence.
        -- rewrite lookup_insert_ne by exact Hne. apply Hm.
      * apply IH. exact Hm.
Qed.

Lemma find_app_Some {A} (p : A -> bool) (l1 l2 : list A) (x : A) :
  List.find p l1 = Some x -> List.find p (l1 ++ l2) = Some x.
Proof.
  induction l1 as [|a l1 IH]; cbn [List.find app]; [discriminate|].
  destruct (p a); [trivial | exact IH].
Qed.

Lemma find_split {A} (p : A -> bool) (l : list A) (x : A) :
  List.find p l = Some x ->
  exists k1 k2, l = k1 ++ x :: k2 /\ List.find p k1 = None.
Proof.
  induction l as [|a l IH]; cbn [List.find]; [discriminate|].
  destruct (p a) eqn:E.
  - intros [= ->]. exists [], l. split; reflexivity.
  - intros H. destruct (IH H) as [k1 [k2 [-> Hk]]].
    exists (a :: k1), k2. split; [reflexivity|]. cbn [List.find].
    rewrite E. exact Hk.
Qed.

Lemma dupRowsOK_app (l1 l2 : list Row) :
  forall pre,
    dupRowsOK pre (l1 ++ l2) = dupRowsOK pre l1 && dupRowsOK (pre ++ l1) l2.
Proof.
  induction l1 as [|r l1 IH]; intros pre; cbn [dupRowsOK app].
  - rewrite app_nil_r. reflexivity.
  - rewrite IH, <- app_assoc, andb_assoc. reflexivity.
Qed.

Lemma dupWellFormed_split (t l1 l2 : list Row) (r : Row) :
  dupWellFormed t = true -> t = l1 ++ r :: l2 -> dupRowOK l1 r = true.
Proof.
  unfold dupWellFormed. intros Ht ->. rewrite dupRowsOK_app in Ht.
  cbn [dupRowsOK app] in Ht.
  apply andb_true_iff in Ht as [_ Ht]. apply andb_true_iff in Ht as [Ht _].
  exact Ht.
Qed.

Lemma dupWellFormed_snoc (t : Store) (r : Row) :
  dupWellFormed t = true -> dupRowOK t r = true ->
  dupWellFormed (t ++ [r]) = true.
Proof.
  unfold dupWellFormed. intros Ht Hr. rewrite dupRowsOK_app, Ht.
  cbn [dupRowsOK app andb]. rewrite Hr. reflexivity.
Qed.

Lemma insertAll_dupWellFormed (db : Store) (f : SaveFaults)
    (urlMap : gmap string Z) (batch : list Bookmark) :
  dupWellFormed db = true ->
  (forall u d, urlMap !! u = Some d -> selectIDByURL db u = Some d) ->
  forall rows i,
    dupWellFormed (db ++ rows) = true ->
    dupWellFormed (fst (insertAll db (db ++ rows) f urlMap i batch)) = true.
Proof.
  intros Hdb Hmap. induction batch as [|b rest IH]; intros rows i Htx;
    cbn [insertAll].
  - destruct (commit_fault f); [exact Hdb | exact Htx].
  - destruct (insert_fault f i); [exact Hdb|].
    destruct (urlMap !! URL b) as [d|] eqn:E; unfold insertRow;
      rewrite <- app_assoc; apply IH; rewrite app_assoc;
      apply dupWellFormed_snoc; try exact Htx;
      unfold dupRowOK; cbn [duplicate_of is_duplicate url andb negb];
      [|reflexivity].
    apply Hmap in E. unfold selectIDByURL in E.
    destruct (List.find _ db) as [r0|] eqn:Ef; [|discriminate].
    injection E as E.
    rewrite (find_app_Some _ db rows r0 Ef). apply Z.eqb_eq. exact E.
Qed.

Lemma SaveBookmarks_dupWellFormed (db : Store) (f : SaveFaults)
    (batch : list Bookmark) :
  dupWellFormed db = true ->
  dupWellFormed (fst (SaveBookmarks db f batch)) = true.
Proof.
  intros Hdb. unfold SaveBookmarks.
  destruct (begin_fault f); [exact Hdb|].
  destruct (prepare_fault f); [exact Hdb|].
  rewrite <- (app_nil_r db) at 2.
  apply insertAll_dupWellFormed; [exact Hdb | | rewrite app_nil_r; exact Hdb].
  apply buildURLMap_sound. intros u d H. rewrite lookup_empty in H. discriminate.
Qed.

Lemma importAll_dupWellFormed (runs : list (SaveFaults * list Bookmark)) :
  forall t, dupWellFormed t = true -> dupWellFormed (importAll runs t) = true.
Proof.
  unfold importAll. induction runs as [|[f batch] runs IH]; intros t Ht;
    cbn [fold_left fst snd]; [exact Ht|].
  apply IH, SaveBookmarks_dupWellFormed, Ht.
Qed.

Lemma dupWellFormed_target (t : Store) (r : Row) (i : Z) :
  dupWellFormed t = true -> In r t -> duplicate_of r = Some i ->
  exists r0,
    In r0 t /\ id_ r0 = i /\ url r0 = url r
    /\ is_duplicate r0 = false /\ duplicate_of r0 = None.
Proof.
  intros Ht Hr Hd. apply List.in_split in Hr as [l1 [l2 Hsplit]].
  pose proof (dupWellFormed_split t l1 l2 r Ht Hsplit) as H.
  unfold dupRowOK in H. rewrite Hd in H.
  apply andb_true_iff in H as [_ H].
  destruct (List.find _ l1) as [r0|] eqn:Hfind; [|discriminate].
  apply Z.eqb_eq in H.
  pose proof (List.find_some _ _ Hfind) as [Hin Hurl].
  apply String.eqb_eq in Hurl.
  destruct (find_split _ _ _ Hfind) as [k1 [k2 [Hk Hnone]]].
  assert (Hr0 : dupRowOK k1 r0 = true).
  { apply (dupWellFormed_split t k1 (k2 ++ r :: l2) r0 Ht).
    rewrite Hsplit, Hk, <- app_assoc. reflexivity. }
  unfold dupRowOK in Hr0. rewrite Hurl, Hnone in Hr0.
  exists r0. split; [rewrite Hsplit; apply List.in_or_app; left; exact Hin|].
  split; [exact H|]. split; [exact Hurl|].
  destruct (duplicate_of r0).
  - rewrite andb_false_r in Hr0. discriminate.
  - apply negb_true_iff in Hr0. split; [exact Hr0 | reflexivity].
Qed.

(** X8: an import keeps the duplicate columns of the table well formed,
    whatever fails in the store: every row that refers to another is
    flagged and refers to the first row before it with the same URL. *)
Theorem SaveBookmarks_keeps_duplicates_well_formed (db : Store)
    (f : SaveFaults) (batch : list Bookmark) :
  dupWellFormed db = true ->
  dupWellFormed (fst (SaveBookmarks db f batch)) = true.
Proof. apply SaveBookmarks_dupWellFormed. Qed.

Lemma SaveBookmarks_keeps_duplicates_well_formed_witness :
  dupWellFormed (fst (SaveBookmarks storeWithA lookupsFail batchA)) = true.
Proof.
  apply (SaveBookmarks_keeps_duplicates_well_formed storeWithA lookupsFail batchA).
  reflexivity.
Defined.

(** X9: in a table built from the empty one by imports, whatever their
    batches and failures, a row that refers to another refers to a row of
    the table with the same URL that is itself an original: duplicates
    never refer to duplicates, and no reference dangles. *)
Theorem duplicates_refer_to_originals
    (runs : list (SaveFaults * list Bookmark)) (r : Row) (i : Z) :
  In r (importAll runs []) ->
  duplicate_of r = Some i ->
  exists r0,
    In r0 (importAll runs []) /\ id_ r0 = i /\ url r0 = url r
    /\ is_duplicate r0 = false /\ duplicate_of r0 = None.
Proof.
  apply dupWellFormed_target, importAll_dupWellFormed. reflexivity.
Qed.

Lemma duplicates_refer_to_originals_witness :
  exists r0,
    In r0 (importAll [(no_faults, batchA); (no_faults, batchA);
                      (no_faults, batchA)] [])
    /\ id_ r0 = 1 /\ url r0 = "http://a.example/"
    /\ is_duplicate r0 = false /\ duplicate_of r0 = None.
Proof.
  apply (duplicates_refer_to_originals
           [(no_faults, batchA); (no_faults, batchA); (no_faults, batchA)]
           (mkRow 3 "T2" "http://a.example/" "Later" false false None true (Some 1))
           1).
  - vm_compute. right. right. left. reflexivity.
  - reflexivity.
Defined.

Lemma buildURLMap_content (db : Store) (f : SaveFaults) (batch : list Bookmark) :
  forall i urlMap,
    buildURLMap db f i (map content batch) urlMap
      = buildURLMap db f i batch urlMap.
Proof.
  induction batch as [|b rest IH]; intros i urlMap; cbn [buildURLMap map];
    [reflexivity|].
  cbn [content URL]. destruct (scanExistingID db (lookup_fault f i) (URL b)).
  apply IH.
Qed.

Lemma insertAll_content (db : Store) (f : SaveFaults) (urlMap : gmap string Z)
    (batch : list Bookmark) :
  forall tx i,
    insertAll db tx f urlMap i (map content batch)
      = insertAll db tx f urlMap i batch.
Proof.
  induction batch as [|b rest IH]; intros tx i; cbn [insertAll map];
    [reflexivity|].
  destruct (insert_fault f i); [reflexivity|].
  cbn [content URL Title Folder]. apply IH.
Qed.

(** X10: an import reads the Title, URL and Folder of its records and
    nothing else: the ID, the status fields and the duplicate fields a
    record carries have no bearing on what is stored. *)
Theorem SaveBookmarks_reads_content_only (db : Store) (f : SaveFaults)
    (batch : list Bookmark) :
  SaveBookmarks db f (map content batch) = SaveBookmarks db f batch.
Proof.
  unfold SaveBookmarks. rewrite buildURLMap_content.
  destruct (begin_fault f); [reflexivity|].
  destruct (prepare_fault f); [reflexivity|].
  apply insertAll_content.
Qed.

(** X11: importing a batch a second time stores every one of its records
    again, each flagged as a duplicate. *)
Theorem reimport_flags_every_record (db : Store) (batch : list Bookmark) :
  exists rows1 rows2,
    SaveBookmarks db no_faults batch = (db ++ rows1, None)
    /\ SaveBookmarks (db ++ rows1) no_faults batch
         = ((db ++ rows1) ++ rows2, None)
    /\ length rows2 = length batch
    /\ Forall (fun r => is_duplicate r = true) rows2.
Proof.
  destruct (SaveBookmarks_appends db no_faults
              (fun _ => eq_refl) (fun _ => eq_refl) eq_refl batch eq_refl eq_refl)
    as [rows1 [Hrun1 Hrows1]].
  destruct (SaveBookmarks_appends (db ++ rows1) no_faults
              (fun _ => eq_refl) (fun _ => eq_refl) eq_refl batch eq_refl eq_refl)
    as [rows2 [Hrun2 Hrows2]].
  exists rows1, rows2. split; [exact Hrun1|]. split; [exact Hrun2|].
  split; [symmetry; exact (Forall2_length _ _ _ Hrows2)|].
  assert (Hurls : forall b, In b batch -> exists r0, In r0 (db ++ rows1) /\ url r0 = URL b).
  { clear Hrun1 Hrun2 Hrows2. intros b Hb.
    induction Hrows1 as [|b1 r1 bs rs [_ [Hu _]] _ IH]; [destruct Hb|].
    destruct Hb as [->|Hb].
    - exists r1. split; [|exact Hu].
      apply List.in_or_app. right. left. reflexivity.
    - destruct (IH Hb) as [r0 [Hin Hr0]]. exists r0. split; [|exact Hr0].
      apply List.in_app_or in Hin as [Hin|Hin]; apply List.in_or_app;
        [left; exact Hin | right; right; exact Hin]. }
  clear Hrun1 Hrun2 Hrows1. revert Hurls.
  induction Hrows2 as [|b r bs rs [_ [_ [_ [Hiff _]]]] _ IH]; intros Hurls;
    constructor.
  - apply Hiff. apply Hurls. left. reflexivity.
  - apply IH. intros b' Hb'. apply Hurls. right. exact Hb'.
Qed.

(** ** ValidateAndUpdateBookmarks, further *)

Lemma probeTask_fields (id : Z) (url : string) (x : Exchange) :
  vr_err (probeTask id url x) = None /\ vr_id (probeTask id url x) = id.
Proof.
  unfold probeTask, ValidateBookmark. destruct (ending x); split; reflexivity.
Qed.

Lemma count_counts (stats : Stats) (result : validationResult) :
  total (count stats result) = S (total stats)
  /\ ((valid stats + dead stats + redirects stats = total stats)%nat ->
      (valid (count stats result) + dead (count stats result)
       + redirects (count stats result) = total (count stats result))%nat).
Proof.
  unfold count. destruct (vr_dead result), (vr_redirect result); cbn; lia.
Qed.

Lemma receive_accounted (tx : Store) (stats : Stats)
    (result : validationResult) (exec_fault : option string) :
  match receive tx stats result exec_fault with
  | Draining _ stats' =>
      total stats' = S (total stats)
      /\ ((valid stats + dead stats + redirects stats = total stats)%nat ->
          (valid stats' + dead stats' + redirects stats' = total stats')%nat)
  | Returned None => False
  | Returned (Some _) => True
  end.
Proof.
  unfold receive, Errorf. destruct (vr_err result); [exact I|].
  destruct exec_fault; [exact I|]. apply count_counts.
Qed.

Lemma step_accounted (n : nat) (c c' : Config) (a : Action) :
  step c a = Some c' -> accounted n c -> accounted n c'.
Proof.
  unfold accounted. intros H Hc. unfold step in H.
  destruct (panicked c); [discriminate|].
  destruct a as [|msg| |k x fault|cf mf wf].
  - (* Launch *)
    destruct (rows c) as [|[id url] rest] eqn:Er; [discriminate|].
    destruct (workQueue c) as [|free]; [discriminate|].
    destruct (closed c) eqn:Ec; [discriminate|]. injection H as <-.
    cbn. destruct (main c) as [tx stats|[err|]]; [|exact I|].
    + destruct Hc as [Hn [Hs _]]. rewrite length_app. cbn in *.
      split; [lia|]. split; [exact Hs | discriminate].
    + destruct Hc as [Hc _]. discriminate.
  - (* ScanError *)
    destruct (rows c) as [|row rest] eqn:Er; [discriminate|].
    destruct (main c) as [tx stats|err] eqn:Em; [|discriminate].
    destruct (closed c); [discriminate|]. injection H as <-. exact I.
  - (* CloseResults *)
    destruct (closed c) eqn:Ec; [discriminate|].
    destruct (rows c) as [|row rest] eqn:Er.
    + injection H as <-. cbn.
      destruct (main c) as [tx stats|[err|]]; [|exact I|].
      * destruct Hc as [Hn [Hs _]]. auto.
      * destruct Hc as [Hc _]. discriminate.
    + destruct (main c) as [tx stats|[err|]] eqn:Em; [discriminate| |].
      * injection H as <-. cbn. exact I.
      * destruct Hc as [Hc _]. discriminate.
  - (* TaskResult *)
    destruct (tasks c !! k) as [[id url]|] eqn:Ek; [|discriminate].
    destruct (closed c) eqn:Ec.
    + injection H as <-. cbn.
      destruct (main c) as [tx stats|[err|]]; [|exact I|].
      * destruct Hc as [Hn [Hs Hr]]. auto.
      * destruct Hc as [_ Hc]. split; [reflexivity | exact Hc].
    + destruct (main c) as [tx stats|err] eqn:Em; [|discriminate].
      injection H as <-. cbn.
      pose proof (receive_accounted tx stats (probeTask id url x) fault) as Hrec.
      destruct (receive tx stats (probeTask id url x) fault) as [tx' stats'|[err|]];
        [|exact I | destruct Hrec].
      destruct Hc as [Hn [Hs _]]. destruct Hrec as [Ht Hs'].
      rewrite length_delete by (eexists; exact Ek).
      pose proof (lookup_lt_Some _ _ _ Ek).
      split; [lia|]. split; [auto | discriminate].
  - (* Finish *)
    destruct (main c) as [tx stats|err] eqn:Em; [|discriminate].
    destruct (closed c) eqn:Ec; [|discriminate].
    destruct Hc as [Hn [Hs Hr]]. rewrite (Hr eq_refl) in Hn. cbn in Hn.
    destruct cf; [injection H as <-; exact I|].
    destruct mf; [injection H as <-; exact I|].
    destruct wf; injection H as <-; [exact I|].
    cbn. split; [reflexivity|]. exists stats. split; [reflexivity|].
    split; [lia | exact Hs].
Qed.

Lemma exec_accounted (n : nat) (schedule : list Action) :
  forall c c', exec c schedule = Some c' -> accounted n c -> accounted n c'.
Proof.
  induction schedule as [|a rest IH]; intros c c' H Hc; cbn [exec] in H.
  - injection H as <-. exact Hc.
  - destruct (step c a) as [c1|] eqn:E; [|discriminate].
    exact (IH _ _ H (step_accounted _ _ _ _ E Hc)).
Qed.



Lemma step_tokens (c c' : Config) (a : Action) :
  step c a = Some c' ->
  (workQueue c + length (tasks c) = workQueue c' + length (tasks c'))%nat.
Proof.
  intros H. unfold step in H. destruct (panicked c); [discriminate|].
  destruct a as [|msg| |k x fault|cf mf wf].
  - destruct (rows c) as [|[id url] rest]; [discriminate|].
    destruct (workQueue c) as [|free]; [discriminate|].
    destruct (closed c); [discriminate|]. injection H as <-.
    cbn. rewrite length_app. cbn. lia.
  - destruct (rows c); [discriminate|].
    destruct (main c); [|discriminate].
    destruct (closed c); [discriminate|]. injection H as <-. reflexivity.
  - destruct (closed c); [discriminate|].
    destruct (rows c); [|destruct (main c); [discriminate|]];
      injection H as <-; reflexivity.
  - destruct (tasks c !! k) as [[id url]|] eqn:Ek; [|discriminate].
    destruct (closed c); [injection H as <-; reflexivity|].
    destruct (main c); [|discriminate]. injection H as <-. cbn.
    rewrite length_delete by (eexists; exact Ek).
    pose proof (lookup_lt_Some _ _ _ Ek). lia.
  - destruct (main c); [|discriminate].
    destruct (closed c); [|discriminate].
    destruct cf; [injection H as <-; reflexivity|].
    destruct mf; [injection H as <-; reflexivity|].
    destruct wf; injection H as <-; reflexivity.
Qed.



(** X14: if the transaction cannot be begun, the rows cannot be queried
    or the update cannot be prepared, the run returns an error and, under
    every schedule of whatever goroutines it had started, neither the
    table nor the report file changes. *)
Theorem failed_start_changes_nothing (db : Store) (report0 : option string)
    (bf qf pf : option string) (schedule : list Action) (c : Config) :
  (bf, qf, pf) <> (None, None, None) ->
  exec (start db report0 bf qf pf) schedule = Some c ->
  (exists err, main c = Returned (Some err))
  /\ store c = db /\ report c = report0.
Proof.
  intros Hfault Hrun.
  assert (H0 : exists err, main (start db report0 bf qf pf) = Returned (Some err)).
  { unfold start, Errorf. destruct bf, qf, pf; try (eexists; reflexivity).
    contradiction. }
  destruct H0 as [err H0].
  destruct (returned_stable_exec _ _ _ _ Hrun H0) as [Hm [Hs Hr]].
  destruct (start_untouched db report0 bf qf pf) as [Hs0 Hr0].
  split; [exists err; exact Hm|]. split; congruence.
Qed.

Lemma failed_start_changes_nothing_witness :
  exists c,
    exec (start storeAB None None None (Some "out of memory"))
         [Launch; Launch; CloseResults] = Some c
    /\ store c = storeAB /\ report c = None.
Proof.
  eexists. split; [vm_compute; reflexivity|].
  destruct (failed_start_changes_nothing storeAB None None None
              (Some "out of memory") [Launch; Launch; CloseResults] _
              ltac:(discriminate) eq_refl) as [_ [Hs Hr]].
  split; [exact Hs | exact Hr].
Defined.

Lemma exec_synchronised (db0 : Store) (report0 : option string) (free : nat)
    (rest : list Row) :
  forall xs tx stats,
    length xs = length rest ->
    exec (mkConfig db0 report0 (map (fun r => (id_ r, url r)) rest) (S free)
                   [] false (Draining tx stats) false)
         (synchronised xs)
      = Some (mkConfig (updateAll tx (probeAll rest xs))
                (Some (renderReport (fold_left count (probeAll rest xs) stats)))
                [] (S free) [] true (Returned None) false).
Proof.
  unfold synchronised.
  induction rest as [|r rest IH]; intros [|x xs] tx stats Hlen;
    try discriminate Hlen.
  - reflexivity.
  - cbn [flat_map app map]. cbn [exec].
    assert (H1 : step (mkConfig db0 report0
                         ((id_ r, url r) :: map (fun r => (id_ r, url r)) rest)
                         (S free) [] false (Draining tx stats) false) Launch
                 = Some (mkConfig db0 report0
                           (map (fun r => (id_ r, url r)) rest) free
                           [(id_ r, url r)] false (Draining tx stats) false))
      by reflexivity.
    rewrite H1.
    assert (H2 : step (mkConfig db0 report0
                         (map (fun r => (id_ r, url r)) rest) free
                         [(id_ r, url r)] false (Draining tx stats) false)
                      (TaskResult 0 x None)
                 = Some (mkConfig db0 report0
                           (map (fun r => (id_ r, url r)) rest) (S free) [] false
                           (Draining
                              (updateStatus tx
                                 (vr_dead (probeTask (id_ r) (url r) x))
                                 (vr_redirect (probeTask (id_ r) (url r) x))
                                 (vr_redirectURL (probeTask (id_ r) (url r) x))
                                 (vr_id (probeTask (id_ r) (url r) x)))
                              (count stats (probeTask (id_ r) (url r) x)))
                           false)).
    { unfold step. cbn [panicked tasks lookup list_lookup closed main store
                        report rows workQueue delete list_delete].
      unfold receive.
      rewrite (proj1 (probeTask_fields (id_ r) (url r) x)). reflexivity. }
    rewrite H2. injection Hlen as Hlen. rewrite (IH xs _ _ Hlen).
    reflexivity.
Qed.

Lemma fold_count_total (results : list validationResult) :
  forall stats,
    total (fold_left count results stats) = (total stats + length results)%nat.
Proof.
  induction results as [|res results IH]; intros stats; cbn [fold_left length].
  - lia.
  - rewrite IH. destruct (count_counts stats res) as [-> _]. lia.
Qed.

(** X15: when every task sends its result before the next is started
    and the channel is closed after the last, the run applies the updates
    of all the probes in the order of the rows, commits them, returns nil
    with no task left and every token back, and reports a total equal to
    the number of rows. *)
Theorem synchronised_run_completes (db : Store) (xs : list Exchange) :
  length xs = length db ->
  ValidateAndUpdateBookmarks db (synchronised xs)
    = Some (mkConfig (updateAll db (probeAll db xs))
              (Some (renderReport
                       (fold_left count (probeAll db xs) (mkStats 0 0 0 0))))
              [] workerCount [] true (Returned None) false)
  /\ total (fold_left count (probeAll db xs) (mkStats 0 0 0 0)) = length db.
Proof.
  intros Hlen. split.
  - unfold ValidateAndUpdateBookmarks, start, workerCount.
    apply exec_synchronised. exact Hlen.
  - rewrite fold_count_total. unfold probeAll.
    rewrite length_zip_with. cbn [total]. lia.
Qed.

Lemma synchronised_run_completes_witness :
  (main <$> ValidateAndUpdateBookmarks storeAB
              (synchronised [twoHops; redirectThenTimeout]))
    = Some (Returned None).
Proof.
  destruct (synchronised_run_completes storeAB [twoHops; redirectThenTimeout]
              eq_refl) as [-> _].
  reflexivity.
Defined.

Lemma updateStatus_other (l : list Row) dead redirect redirectURL (id : Z) :
  (forall r, In r l -> id_ r <> id) ->
  updateStatus l dead redirect redirectURL id = l.
Proof.
  unfold updateStatus. induction l as [|r l IH]; intros Hl; cbn [map];
    [reflexivity|].
  rewrite IH by (intros r' Hr'; apply Hl; right; exact Hr').
  destruct (Z.eqb_spec (id_ r) id) as [Heq|_]; [|reflexivity].
  destruct (Hl r (or_introl eq_refl) Heq).
Qed.

Lemma updateAll_own_rows (rest : list Row) :
  forall pre xs,
    NoDup (map id_ (pre ++ rest)) ->
    length xs = length rest ->
    updateAll (pre ++ rest) (probeAll rest xs)
      = pre ++ zip_with withStatus rest (probeAll rest xs).
Proof.
  induction rest as [|r rest IH]; intros pre [|x xs] Hnd Hlen;
    try discriminate Hlen; [reflexivity|].
  injection Hlen as Hlen.
  unfold probeAll, updateAll. cbn [zip_with fold_left].
  fold (probeAll rest xs).
  fold (updateAll
          (updateStatus (pre ++ r :: rest)
             (vr_dead (probeTask (id_ r) (url r) x))
             (vr_redirect (probeTask (id_ r) (url r) x))
             (vr_redirectURL (probeTask (id_ r) (url r) x))
             (vr_id (probeTask (id_ r) (url r) x)))
          (probeAll rest xs)).
  rewrite (proj2 (probeTask_fields (id_ r) (url r) x)).
  rewrite map_app in Hnd. cbn [map] in Hnd.
  apply NoDup_app in Hnd as [Hpre [Hdisj Hrest]].
  apply NoDup_cons in Hrest as [Hr Hrest].
  assert (Hupd : updateStatus (pre ++ r :: rest)
                   (vr_dead (probeTask (id_ r) (url r) x))
                   (vr_redirect (probeTask (id_ r) (url r) x))
                   (vr_redirectURL (probeTask (id_ r) (url r) x)) (id_ r)
                 = (pre ++ [withStatus r (probeTask (id_ r) (url r) x)]) ++ rest).
  { unfold updateStatus. rewrite map_app. cbn [map]. rewrite Z.eqb_refl.
    fold (updateStatus pre (vr_dead (probeTask (id_ r) (url r) x))
            (vr_redirect (probeTask (id_ r) (url r) x))
            (vr_redirectURL (probeTask (id_ r) (url r) x)) (id_ r)).
    fold (updateStatus rest (vr_dead (probeTask (id_ r) (url r) x))
            (vr_redirect (probeTask (id_ r) (url r) x))
            (vr_redirectURL (probeTask (id_ r) (url r) x)) (id_ r)).
    rewrite !updateStatus_other, <- app_assoc; [reflexivity| |].
    - intros r' Hr' Heq. apply Hr. rewrite <- Heq.
      apply list_elem_of_In, List.in_map. exact Hr'.
    - intros r' Hr' Heq. apply (Hdisj (id_ r')).
      + apply list_elem_of_In, List.in_map. exact Hr'.
      + rewrite Heq. left. }
  rewrite Hupd, IH; [rewrite <- app_assoc; reflexivity | | exact Hlen].
  rewrite map_app, map_app. cbn [map withStatus id_].
  rewrite <- app_assoc. cbn [app].
  apply NoDup_app. split; [exact Hpre|]. split; [exact Hdisj|].
  apply NoDup_cons. split; [exact Hr | exact Hrest].
Qed.

(** X16: in a table whose ids are distinct, such a run leaves every row
    with the status of its own probe: is_dead, is_redirect and
    redirect_url are those of the result for the row's URL, and the other
    columns are as before. *)
Theorem synchronised_run_sets_own_status (db : Store) (xs : list Exchange) :
  NoDup (map id_ db) ->
  length xs = length db ->
  (store <$> ValidateAndUpdateBookmarks db (synchronised xs))
    = Some (zip_with withStatus db (probeAll db xs)).
Proof.
  intros Hnd Hlen.
  unfold ValidateAndUpdateBookmarks, start, workerCount.
  rewrite (exec_synchronised db None 9 db xs db (mkStats 0 0 0 0) Hlen).
  cbn [fmap option_fmap option_map store]. f_equal.
  apply (updateAll_own_rows db [] xs Hnd Hlen).
Qed.

Lemma synchronised_run_sets_own_status_witness :
  (store <$> ValidateAndUpdateBookmarks storeAB
               (synchronised [twoHops; redirectThenTimeout]))
    = Some [mkRow 1 "T1" "http://a.example/" "News" false true
                  (Some "https://a.example/home") false None;
            mkRow 2 "T2" "http://b.example/" "" true true
                  (Some "https://a.example/") true (Some 1)].
Proof.
  rewrite (synchronised_run_sets_own_status storeAB [twoHops; redirectThenTimeout]).
  - reflexivity.
  - apply (bool_decide_unpack (NoDup (map id_ storeAB))). vm_compute. exact I.
  - reflexivity.
Defined.

(** ** The exports *)

Section Grouping.

Context {A : Type}.
Variable key : A -> string.

Lemma fold_groupEntries_lookup (entries : list A) :
  forall (m : gmap string (list A)) f,
    fold_left
      (fun byFolder e => <[key e := default [] (byFolder !! key e) ++ [e]]> byFolder)
      entries m !! f =
    match filter (fun e => key e = f) entries with
    | [] => m !! f
    | l => Some (default [] (m !! f) ++ l)
    end.
Proof.
  induction entries as [|e entries IH]; intros m f; cbn [fold_left];
    [reflexivity|].
  rewrite IH, filter_cons. destruct (decide (key e = f)) as [<-|Hne].
  - rewrite lookup_insert_eq. cbn [default].
    destruct (filter _ entries); [reflexivity|]. unfold id.
    rewrite <- app_assoc. reflexivity.
  - rewrite lookup_insert_ne by exact Hne. reflexivity.
Qed.

Lemma groupEntries_lookup (entries : list A) (f : string) :
  default [] (groupEntries key entries !! f)
    = filter (fun e => key e = f) entries.
Proof.
  unfold groupEntries. rewrite fold_groupEntries_lookup, lookup_empty.
  destruct (filter _ entries); reflexivity.
Qed.

Lemma groupEntries_keys (entries : list A) (e : A) :
  e ∈ entries -> key e ∈ (map_to_list (groupEntries key entries)).*1.
Proof.
  intros He. apply list_elem_of_fmap.
  exists (key e, filter (fun e' => key e' = key e) entries).
  split; [reflexivity|]. apply elem_of_map_to_list.
  unfold groupEntries. rewrite fold_groupEntries_lookup, lookup_empty.
  destruct (filter _ entries) as [|e0 l] eqn:E; [|reflexivity].
  exfalso. eapply (filter_nil_not_elem_of _ _ e E); [reflexivity | exact He].
Qed.

Lemma concat_by_key (order : list string) :
  NoDup order ->
  forall entries : list A,
    (forall e, e ∈ entries -> key e ∈ order) ->
    concat (map (fun f => filter (fun e => key e = f) entries) order)
      ≡ₚ entries.
Proof.
  induction 1 as [|f0 order Hnotin _ IH]; intros entries Hcover;
    cbn [map concat].
  - destruct entries as [|e entries]; [reflexivity|].
    destruct (not_elem_of_nil (key e)). apply Hcover. left.
  - etransitivity;
      [|apply (filter_app_complement (fun e => key e = f0) entries)].
    apply Permutation_app_head.
    etransitivity;
      [|apply (IH (filter (fun e => ~ key e = f0) entries))].
    + erewrite List.map_ext_in; [reflexivity|].
      intros f Hf. cbn beta. rewrite list_filter_filter.
      apply list_filter_iff. intros e. split; [|tauto].
      intros <-. split; [reflexivity|].
      intros Heq. apply Hnotin. rewrite <- Heq. apply list_elem_of_In. exact Hf.
    + intros e He. apply list_elem_of_filter in He as [Hne He].
      specialize (Hcover e He). apply elem_of_cons in Hcover as [Heq|Hin];
        [contradiction | exact Hin].
Qed.

Variable link : A -> HelperWrite.
Variable entry : A -> Bookmark * option string.

Hypothesis link_entry :
  forall e, helperLinks [link e] = [entry e].

Lemma helperLinks_app (ws1 ws2 : list HelperWrite) :
  helperLinks (ws1 ++ ws2) = helperLinks ws1 ++ helperLinks ws2.
Proof. apply omap_app. Qed.

Lemma helperLinks_links (entries : list A) :
  helperLinks (map link entries) = map entry entries.
Proof.
  induction entries as [|e entries IH]; [reflexivity|].
  change (map link (e :: entries)) with ([link e] ++ map link entries).
  rewrite helperLinks_app, link_entry, IH. reflexivity.
Qed.

Lemma helperLinks_folder (byFolder : gmap string (list A)) (f : string) :
  helperLinks (helperFolderWrites link byFolder f)
    = map entry (default [] (byFolder !! f)).
Proof.
  unfold helperFolderWrites. rewrite !helperLinks_app, helperLinks_links.
  destruct (f =? "");
    [|change (helperLinks [HFolderHeader f]) with (@nil (Bookmark * option string));
      change (helperLinks [HFolderFooter]) with (@nil (Bookmark * option string))];
    cbn [app]; apply app_nil_r.
Qed.

(** The links a helper writes are the entries it was given, each once,
    whatever the order of the range. *)
Lemma helperLinks_export (title : string) (entries : list A)
    (order : list string) :
  rangesOver (groupEntries key entries) order ->
  helperLinks ([HHeader title]
               ++ concat (map (helperFolderWrites link (groupEntries key entries))
                              order)
               ++ [HFooter])
    ≡ₚ map entry entries.
Proof.
  intros Horder. rewrite !helperLinks_app.
  change (helperLinks [HHeader title]) with (@nil (Bookmark * option string)).
  change (helperLinks [HFooter]) with (@nil (Bookmark * option string)).
  rewrite app_nil_r. cbn [app].
  assert (Heq : helperLinks
                  (concat (map (helperFolderWrites link (groupEntries key entries))
                               order))
                = map entry
                    (concat (map (fun f => filter (fun e => key e = f) entries)
                                 order))).
  { clear Horder. induction order as [|f order IH]; [reflexivity|].
    cbn [map concat]. rewrite helperLinks_app, IH, helperLinks_folder,
      groupEntries_lookup, map_app. reflexivity. }
  rewrite Heq. apply Permutation_map. apply concat_by_key.
  - unfold rangesOver in Horder. rewrite Horder. apply NoDup_fst_map_to_list.
  - intros e He. unfold rangesOver in Horder. rewrite Horder.
    apply groupEntries_keys. exact He.
Qed.

End Grouping.



Lemma render_asHelperWrite (w : Write) :
  renderHelper (asHelperWrite w) = render w.
Proof. destruct w; reflexivity. Qed.

(** X18: the export of valid bookmarks, which has its own copy of the
    writing code, writes what the shared helper writes for the same rows
    under the title Bookmarks: the same calls in the same order, and so
    the same file. *)
Theorem ExportValidBookmarks_is_helper (db : Store) (order : list string) :
  map asHelperWrite (ExportValidBookmarks db order)
    = exportBookmarksToHTML (selectValid db) "Bookmarks" order
  /\ fileContent (ExportValidBookmarks db order)
       = helperContent (exportBookmarksToHTML (selectValid db) "Bookmarks" order).
Proof.
  assert (H : map asHelperWrite (ExportValidBookmarks db order)
              = exportBookmarksToHTML (selectValid db) "Bookmarks" order).
  { unfold ExportValidBookmarks, exportBookmarksToHTML.
    change (groupEntries Folder (map scanBookmark (selectValid db)))
      with (groupByFolder (map scanBookmark (selectValid db))).
    generalize (groupByFolder (map scanBookmark (selectValid db))) as m.
    intros m.
    assert (Hc : map asHelperWrite (concat (map (folderWrites m) order))
                 = concat (map (helperFolderWrites HLink m) order)).
    { induction order as [|f order IH]; [reflexivity|].
      cbn [map concat]. rewrite map_app, IH.
      unfold folderWrites, helperFolderWrites. rewrite !map_app, map_map.
      destruct (f =? ""); reflexivity. }
    rewrite !map_app, Hc. reflexivity. }
  split; [exact H|]. rewrite <- H. clear H.
  unfold fileContent, helperContent.
  induction (ExportValidBookmarks db order) as [|w ws IH]; [reflexivity|].
  cbn [map fold_right]. rewrite render_asHelperWrite, IH. reflexivity.
Qed.

Lemma scanRedirects_ok (rows : list Row) :
  (forall r, In r rows -> redirect_url r <> None) ->
  scanRedirects rows = inl (redirectEntries rows)
  /\ map (fun e => (fst e, Some (snd e))) (redirectEntries rows)
       = map (fun r => (scanBookmark r, redirect_url r)) rows.
Proof.
  induction rows as [|r rows IH]; intros Hall; [split; reflexivity|].
  destruct IH as [IH1 IH2]; [intros r' Hr'; apply Hall; right; exact Hr'|].
  cbn [scanRedirects]. unfold redirectEntries in *. cbn [omap list_omap].
  destruct (redirect_url r) as [u|] eqn:E.
  - change (list_omap ?f ?l) with (omap f l).
    rewrite IH1. split; [reflexivity|]. cbn [map fst snd].
    rewrite E. f_equal. exact IH2.
  - destruct (Hall r (or_introl eq_refl) E).
Qed.

Lemma scanRedirects_fail (rows : list Row) (r : Row) :
  In r rows -> redirect_url r = None -> scanRedirects rows = inr scanNullError.
Proof.
  induction rows as [|r0 rows IH]; intros Hin Hr; [destruct Hin|].
  cbn [scanRedirects]. destruct (redirect_url r0) as [u|] eqn:E; [|reflexivity].
  destruct Hin as [->|Hin]; [congruence|]. rewrite (IH Hin Hr). reflexivity.
Qed.

Lemma redirectOK_rows (db : Store) :
  redirectOK db = true ->
  forall r, In r (selectRedirect db) -> redirect_url r <> None.
Proof.
  intros Hok r Hr. unfold selectRedirect in Hr.
  apply list_elem_of_In in Hr. rewrite merge_sort_Permutation in Hr.
  apply list_elem_of_In, List.filter_In in Hr as [Hin Hred].
  unfold redirectOK in Hok. rewrite List.forallb_forall in Hok.
  specialize (Hok r Hin). rewrite Hred in Hok. cbn [implb] in Hok.
  destruct (redirect_url r); [discriminate | discriminate Hok].
Qed.



(** X20: when a row is marked as redirecting and its redirect URL is
    NULL, the export of redirects fails on scanning it and writes no
    file, whatever the other rows are. *)
Theorem ExportRedirectBookmarks_null (db : Store) (order : list string)
    (r : Row) :
  In r db -> is_redirect r = true -> redirect_url r = None ->
  ExportRedirectBookmarks db order
    = (None, Errorf "error scanning bookmark" scanNullError).
Proof.
  intros Hin Hred Hnull.
  unfold ExportRedirectBookmarks, exportRedirectBookmarksToHTML.
  assert (Hr : In r (selectRedirect db)).
  { unfold selectRedirect. apply list_elem_of_In.
    rewrite merge_sort_Permutation. apply list_elem_of_In, List.filter_In.
    split; assumption. }
  rewrite (scanRedirects_fail _ r Hr Hnull). reflexivity.
Qed.

Lemma ExportRedirectBookmarks_null_witness :
  ExportRedirectBookmarks storeNullRedirect ["News"]
    = (None, Errorf "error scanning bookmark" scanNullError).
Proof.
  apply (ExportRedirectBookmarks_null storeNullRedirect ["News"]
           (mkRow 2 "Beta" "http://b.example/" "News" false true None false None)).
  - right. left. reflexivity.
  - reflexivity.
  - reflexivity.
Defined.

Lemma updateStatus_redirectOK (t : Store) dead redirect redirectURL id :
  redirectOK t = true ->
  redirectOK (updateStatus t dead redirect redirectURL id) = true.
Proof.
  unfold redirectOK, updateStatus. induction t as [|r t IH];
    cbn [map forallb]; [reflexivity|].
  intros H. apply andb_true_iff in H as [Hr Ht]. rewrite (IH Ht), andb_true_r.
  destruct (id_ r =? id)%Z; [|exact Hr]. cbn. apply implb_true_r.
Qed.

Lemma insertAll_redirectOK (db : Store) (f : SaveFaults)
    (urlMap : gmap string Z) (batch : list Bookmark) :
  redirectOK db = true ->
  forall tx i,
    redirectOK tx = true ->
    redirectOK (fst (insertAll db tx f urlMap i batch)) = true.
Proof.
  intros Hdb. induction batch as [|b rest IH]; intros tx i Htx; cbn [insertAll].
  - destruct (commit_fault f); [exact Hdb | exact Htx].
  - destruct (insert_fault f i); [exact Hdb|].
    apply IH. destruct (urlMap !! URL b); unfold insertRow, redirectOK;
      rewrite forallb_app; fold (redirectOK tx); rewrite Htx; reflexivity.
Qed.

Lemma SaveBookmarks_redirectOK (db : Store) (f : SaveFaults)
    (batch : list Bookmark) :
  redirectOK db = true -> redirectOK (fst (SaveBookmarks db f batch)) = true.
Proof.
  intros Hdb. unfold SaveBookmarks.
  destruct (begin_fault f); [exact Hdb|].
  destruct (prepare_fault f); [exact Hdb|].
  apply insertAll_redirectOK; exact Hdb.
Qed.

Lemma step_keepsRedirectOK (c c' : Config) (a : Action) :
  step c a = Some c' -> keepsRedirectOK c -> keepsRedirectOK c'.
Proof.
  unfold keepsRedirectOK. intros H [Hs Hm]. unfold step in H.
  destruct (panicked c); [discriminate|].
  destruct a as [|msg| |k x fault|cf mf wf].
  - destruct (rows c) as [|[id url] rest]; [discriminate|].
    destruct (workQueue c); [discriminate|].
    destruct (closed c); [discriminate|]. injection H as <-. auto.
  - destruct (rows c); [discriminate|].
    destruct (main c); [|discriminate].
    destruct (closed c); [discriminate|]. injection H as <-.
    split; [exact Hs | exact I].
  - destruct (closed c); [discriminate|].
    destruct (rows c); [|destruct (main c); [discriminate|]];
      injection H as <-; auto.
  - destruct (tasks c !! k) as [[id url]|]; [|discriminate].
    destruct (closed c); [injection H as <-; auto|].
    destruct (main c) as [tx stats|]; [|discriminate]. injection H as <-.
    cbn. split; [exact Hs|].
    destruct (receive_cases tx stats (probeTask id url x) fault)
      as [[err ->] | ->]; [exact I|].
    apply updateStatus_redirectOK. exact Hm.
  - destruct (main c) as [tx stats|]; [|discriminate].
    destruct (closed c); [|discriminate].
    destruct cf; [injection H as <-; cbn in *; auto|].
    destruct mf; [injection H as <-; cbn in *; auto|].
    destruct wf; injection H as <-; cbn in *; auto.
Qed.

Lemma operate_redirectOK (t : Store) (op : Operation) :
  redirectOK t = true -> redirectOK (operate t op) = true.
Proof.
  intros Ht. destruct op as [f batch|bf qf pf schedule]; cbn [operate].
  - apply SaveBookmarks_redirectOK. exact Ht.
  - destruct (exec (start t None bf qf pf) schedule) as [c|] eqn:E; [|exact Ht].
    assert (H0 : keepsRedirectOK (start t None bf qf pf)).
    { unfold keepsRedirectOK, start. destruct bf, qf, pf; cbn; auto. }
    revert E H0. generalize (start t None bf qf pf).
    induction schedule as [|a rest IH]; intros c0 E H0; cbn [exec] in E.
    + injection E as <-. apply H0.
    + destruct (step c0 a) as [c1|] eqn:E1; [|discriminate].
      exact (IH c1 E (step_keepsRedirectOK _ _ _ E1 H0)).
Qed.

(** X21: in a table built from the empty one by imports and validation
    runs, whatever their batches, failures and schedules, every row that
    is marked as redirecting has a redirect URL; so the export of
    redirects never fails on scanning such a table. *)
Theorem redirecting_rows_have_url (ops : list Operation)
    (order : list string) :
  redirectOK (fold_left operate ops []) = true
  /\ snd (ExportRedirectBookmarks (fold_left operate ops []) order) = None.
Proof.
  assert (H : redirectOK (fold_left operate ops []) = true).
  { assert (H0 : redirectOK [] = true) by reflexivity.
    revert H0. generalize (@nil Row).
    induction ops as [|op ops IH]; intros t Ht; cbn [fold_left]; [exact Ht|].
    apply IH, operate_redirectOK, Ht. }
  split; [exact H|].
  unfold ExportRedirectBookmarks, exportRedirectBookmarksToHTML.
  destruct (scanRedirects_ok _ (redirectOK_rows _ H)) as [-> _]. reflexivity.
Qed.

(** X22: an export of everything that meets a redirecting row without a
    redirect URL has by then written bookmarks.html and dead-links.html;
    it leaves them in place, writes no redirects.html and returns the
    error of the scan. *)
Theorem ExportAllBookmarks_stops_at_null (db : Store)
    (order_valid order_dead order_redirect : list string) (r : Row) :
  In r db -> is_redirect r = true -> redirect_url r = None ->
  ExportAllBookmarks db None order_valid order_dead order_redirect
    = (mkExported (Some (fileContent (ExportValidBookmarks db order_valid)))
                  (Some (helperContent (ExportDeadBookmarks db order_dead)))
                  None,
       Errorf "error exporting redirecting bookmarks"
              ("error scanning bookmark: " +:+ scanNullError)).
Proof.
  intros Hin Hred Hnull.
  unfold ExportAllBookmarks, ExportRedirectBookmarks,
    exportRedirectBookmarksToHTML.
  assert (Hr : In r (selectRedirect db)).
  { unfold selectRedirect. apply list_elem_of_In.
    rewrite merge_sort_Permutation. apply list_elem_of_In, List.filter_In.
    split; assumption. }
  rewrite (scanRedirects_fail _ r Hr Hnull). reflexivity.
Qed.

Lemma ExportAllBookmarks_stops_at_null_witness :
  redirects_html (fst (ExportAllBookmarks storeNullRedirect None
                         ["News"] ["News"] ["News"])) = None
  /\ dead_links_html (fst (ExportAllBookmarks storeNullRedirect None
                             ["News"] ["News"] ["News"]))
       = Some (helperContent (ExportDeadBookmarks storeNullRedirect ["News"])).
Proof.
  rewrite (ExportAllBookmarks_stops_at_null storeNullRedirect
             ["News"] ["News"] ["News"]
             (mkRow 2 "Beta" "http://b.example/" "News" false true None false None)).
  - split; reflexivity.
  - right. left. reflexivity.
  - reflexivity.
  - reflexivity.
Defined.

Lemma links_valid_exact (db : Store) (order : list string) :
  rangeOrder db order ->
  links (ExportValidBookmarks db order)
    ≡ₚ map scanBookmark (List.filter isValid db).
Proof.
  intros Horder. rewrite links_ExportValidBookmarks.
  transitivity (map scanBookmark (selectValid db));
    [|apply Permutation_map; unfold selectValid; apply merge_sort_Permutation].
  apply concat_by_folder.
  - unfold rangeOrder in Horder. rewrite Horder. apply NoDup_fst_map_to_list.
  - intros b Hb. unfold rangeOrder in Horder. rewrite Horder.
    apply groupByFolder_keys. exact Hb.
Qed.



(** ** The parse command *)

Lemma Parse_titles_urls (doc : Node) :
  map (fun b => (Title b, URL b)) (fst (Parse (inl doc)))
    = omap linkTitleURL (preorder doc).
Proof.
  cbn [Parse fst]. rewrite traverse_preorder.
  rewrite (walk_emitted _ [] (mkWalk [] "")) by reflexivity. cbn [bookmarks app].
  generalize (@nil Node). induction (preorder doc) as [|n rest IH]; intros pre;
    [reflexivity|].
  cbn [emitted]. change (omap linkTitleURL (n :: rest))
    with (match linkTitleURL n with
          | Some p => p :: omap linkTitleURL rest
          | None => omap linkTitleURL rest
          end).
  unfold linkRecord, linkTitleURL.
  destruct (isLink n && negb (hrefOf (Attr n) =? "")
            && negb (firstChildData n =? "")); cbn [map]; rewrite IH;
    reflexivity.
Qed.

(** X24: the parse command on a file that opens and parses, with no
    failure of the store, appends to the table one row per link element
    that has a non-empty href and a non-empty first child, in document
    order, with the trimmed text as title and the href as url, and prints
    the number of these rows. *)
Theorem parseBookmarks_imports_the_links (db : Store) (doc : Node) :
  exists rows,
    parseBookmarks db None (inl (inl doc)) no_faults
      = (db ++ rows,
         Some ("Successfully imported " +:+ pretty (length rows)
               +:+ " bookmarks
"),
         None)
    /\ map (fun r => (title r, url r)) rows = omap linkTitleURL (preorder doc).
Proof.
  unfold parseBookmarks, ParseFile.
  pose proof (Parse_titles_urls doc) as Hdoc.
  destruct (Parse (inl doc)) as [bs err] eqn:EP.
  assert (Herr : err = None) by (cbn in EP; congruence). subst err.
  cbn [fst] in Hdoc.
  destruct (SaveBookmarks_appends db no_faults
              (fun _ => eq_refl) (fun _ => eq_refl) eq_refl bs eq_refl eq_refl)
    as [rows [Hrun Hrows]].
  rewrite Hrun. exists rows.
  rewrite (Forall2_length _ _ _ Hrows). split; [reflexivity|].
  rewrite <- Hdoc. clear Hrun Hdoc EP.
  induction Hrows as [|b r bs rs [Ht [Hu _]] _ IH]; [reflexivity|].
  cbn [map]. rewrite Ht, Hu, IH. reflexivity.
Qed.

(** ** Errors of a validation run *)

Lemma step_errorLeaves (db : Store) (report0 : option string)
    (c c' : Config) (a : Action) :
  step c a = Some c' -> errorLeaves db report0 c -> errorLeaves db report0 c'.
Proof.
  unfold errorLeaves. intros H Hc. unfold step in H.
  destruct (panicked c); [discriminate|].
  destruct a as [|msg| |k x fault|cf mf wf].
  - destruct (rows c) as [|[id url] rest]; [discriminate|].
    destruct (workQueue c); [discriminate|].
    destruct (closed c); [discriminate|]. injection H as <-. exact Hc.
  - destruct (rows c); [discriminate|].
    destruct (main c); [|discriminate].
    destruct (closed c); [discriminate|]. injection H as <-.
    cbn. destruct Hc as [Hs Hr]. auto.
  - destruct (closed c); [discriminate|].
    destruct (rows c); [|destruct (main c); [discriminate|]];
      injection H as <-; exact Hc.
  - destruct (tasks c !! k) as [[id url]|]; [|discriminate].
    destruct (closed c); [injection H as <-; exact Hc|].
    destruct (main c) as [tx stats|]; [|discriminate]. injection H as <-.
    cbn. destruct Hc as [Hs Hr].
    destruct (receive_cases tx stats (probeTask id url x) fault)
      as [[err ->] | ->]; auto.
  - destruct (main c) as [tx stats|]; [|discriminate].
    destruct (closed c); [|discriminate]. destruct Hc as [Hs Hr].
    destruct cf; [injection H as <-; cbn; auto|].
    destruct mf as [msg|];
      [injection H as <-; cbn; split; [exact Hr|]; right; exists msg; left;
       reflexivity|].
    destruct wf as [msg|]; injection H as <-; cbn; [|exact I].
    split; [exact Hr|]. right. exists msg. right. reflexivity.
Qed.


